(** * Capability aggregation, abstract-type guards and the abstraction gateway

    A shallow embedding of the interface-segregation example
    ([aggregation], [Machine], [Printer], [Scanner], [Photocopier]) and of the
    dependency-inversion example ([RelationshipBrowser], [Relationships],
    [Research]) of the repository, with the fragment of the JavaScript object
    model that these functions exercise: own-property tables with property
    descriptors, prototype chains given by [extends], [new], and exceptions. *)

From stdpp Require Import gmap strings list fin_maps pretty sorting.

Open Scope string_scope.

(** ** Values, property keys and descriptors *)

(** Property keys are strings or symbols. *)
Inductive key :=
| KStr (s : string)
| KSym (n : nat).

Global Instance key_eq_dec : EqDecision key.
Proof. solve_decision. Defined.

Global Instance key_countable : Countable key.
Proof.
  refine (inj_countable'
    (fun k => match k with KStr s => inl s | KSym n => inr n end)
    (fun x => match x with inl s => KStr s | inr n => KSym n end) _).
  by intros [].
Defined.

Coercion KStr : string >-> key.

(** Values stored in properties.  Function objects and other objects are
    handles compared by identity; numbers are integers. *)
Inductive value :=
| VUndefined
| VNull
| VBool (b : bool)
| VNum (n : Z)
| VStr (s : string)
| VFun (f : string)      (* a function object, named by its handle *)
| VProto (f : string)    (* the [prototype] object of the function [f] *)
| VObj (id : nat).       (* any other object *)

Global Instance value_eq_dec : EqDecision value.
Proof. solve_decision. Defined.

(** [a === b] on the values above. *)
Definition strict_equals (a b : value) : bool := bool_decide (a = b).

Inductive descriptor :=
| DataDesc (v : value) (writable enumerable configurable : bool)
| AccessorDesc (get set : value) (enumerable configurable : bool).

Global Instance descriptor_eq_dec : EqDecision descriptor.
Proof. solve_decision. Defined.

Definition configurable (d : descriptor) : bool :=
  match d with DataDesc _ _ _ c => c | AccessorDesc _ _ _ c => c end.

Definition enumerable (d : descriptor) : bool :=
  match d with DataDesc _ _ e _ => e | AccessorDesc _ _ e _ => e end.

(** A method or accessor-free member as class syntax defines it, and a
    property as an assignment [this.k = v] creates it. *)
Definition method (f : string) : descriptor := DataDesc (VFun f) true false true.
Definition field (v : value) : descriptor := DataDesc v true true true.

(** ** Exceptions and completions *)

(** [TypeError] is what the runtime throws (its message is engine specific);
    [Error msg] is [new Error(msg)] thrown by the program. *)
Inductive exn :=
| TypeError
| Error (msg : string).

Global Instance exn_eq_dec : EqDecision exn.
Proof. solve_decision. Defined.

(** How an evaluation ends: with a value, with an exception, or, for
    [Outside], in a way that the tables of the model do not determine, because
    it depends on the body of a function that the model knows by its handle
    only (a getter) or on whether two objects are one and the same. *)
Inductive result (A : Type) :=
| Ok (a : A)
| Throw (e : exn)
| Outside.
Arguments Ok {A} a.
Arguments Throw {A} e.
Arguments Outside {A}.

Global Instance result_ret : MRet result := fun _ a => Ok a.
Global Instance result_bind : MBind result := fun _ _ f r =>
  match r with Ok a => f a | Throw e => Throw e | Outside => Outside end.

Definition is_ok {A} (r : result A) : bool :=
  match r with Ok _ => true | _ => false end.

(** [xs.forEach(x => { acc = f(acc, x) })] where [f] may throw. *)
Fixpoint forEach {A S} (f : S -> A -> result S) (xs : list A) (acc : S) : result S :=
  match xs with
  | [] => Ok acc
  | x :: xs => acc' ← f acc x; forEach f xs acc'
  end.

(** ** Objects: own-property tables *)

Record obj := Obj {
  props : gmap key descriptor;
  extensible : bool
}.

Definition empty_obj : obj := Obj ∅ true.

Definition own_keys (o : obj) : list key := (map_to_list (props o)).*1.

Definition is_string_key (k : key) : bool :=
  match k with KStr _ => true | KSym _ => false end.

Definition getOwnPropertyNames (o : obj) : list key :=
  List.filter is_string_key (own_keys o).

Definition getOwnPropertySymbols (o : obj) : list key :=
  List.filter (fun k => negb (is_string_key k)) (own_keys o).

Definition getOwnPropertyDescriptor (o : obj) (k : key) : option descriptor :=
  props o !! k.

(** The check of [Object.defineProperty] against an existing property, for a
    complete descriptor [desc] (ValidateAndApplyPropertyDescriptor). *)
Definition redefinition_allowed (current desc : descriptor) : bool :=
  if configurable current then true
  else negb (configurable desc)
       && bool_decide (enumerable desc = enumerable current)
       && match current, desc with
          | DataDesc v w _ _, DataDesc v' w' _ _ =>
              w || (negb w' && bool_decide (v' = v))
          | AccessorDesc g s _ _, AccessorDesc g' s' _ _ =>
              bool_decide (g' = g) && bool_decide (s' = s)
          | _, _ => false
          end.

(** [Object.defineProperty(target, prop, desc)]; [desc = undefined] and a
    rejected definition are TypeErrors. *)
Definition defineProperty (target : obj) (prop : key) (desc : option descriptor)
  : result obj :=
  match desc with
  | None => Throw TypeError
  | Some d =>
      match props target !! prop with
      | None =>
          if extensible target
          then Ok (Obj (<[prop := d]> (props target)) (extensible target))
          else Throw TypeError
      | Some current =>
          if redefinition_allowed current d
          then Ok (Obj (<[prop := d]> (props target)) (extensible target))
          else Throw TypeError
      end
  end.

(** ** copyProps *)

(** The Exclusion Set: the alternatives of the regular expression
    [/^(?:constructor|prototype|arguments|caller|name|bind|call|apply|toString|length)$/]. *)
Definition exclusion_set : list string :=
  ["constructor"; "prototype"; "arguments"; "caller"; "name"; "bind"; "call";
   "apply"; "toString"; "length"].

(** The anchored alternation matches exactly the listed names. *)
Definition regexp_test (s : string) : bool :=
  bool_decide (s ∈ exclusion_set).

(** [prop.match(/^(?:...)$/)] as a truth value.  Strings have [match];
    a symbol does not, so calling it is a TypeError. *)
Definition prop_match (prop : key) : result bool :=
  match prop with
  | KStr s => Ok (regexp_test s)
  | KSym _ => Throw TypeError
  end.

Definition copyProp (source : obj) (target : obj) (prop : key) : result obj :=
  matched ← prop_match prop;
  if negb matched
  then defineProperty target prop (getOwnPropertyDescriptor source prop)
  else Ok target.

Definition copyProps (target source : obj) : result obj :=
  forEach (copyProp source)
          (getOwnPropertyNames source ++ getOwnPropertySymbols source)
          target.

(** ** Classes *)

(** What stands after [extends]: nothing, [null], or a class. *)
Inductive heritage (C : Type) :=
| NoExtends
| ExtendsNull
| Extends (parent : C).
Arguments NoExtends {C}.
Arguments ExtendsNull {C}.
Arguments Extends {C} parent.

Inductive primitive :=
| PUndefined
| PNull
| PBool (b : bool)
| PNum (n : Z)
| PStr (s : string).

(** A value handed to [aggregation], to [extends] or to [new]: a class, or a
    primitive (which is not a constructor). *)
Inductive operand (C : Type) :=
| OClass (c : C)
| OPrim (p : primitive).
Arguments OClass {C} c.
Arguments OPrim {C} p.

(** The statements of a constructor that follow its [super(...)] call (all of
    them in a class without [extends]), as a function of what reading
    [this.constructor.name] gives where the statements read it, of the
    arguments, and of the own properties of [this]. *)
Definition ctor_body := result value -> list value -> obj -> result obj.

Inductive ctor (C : Type) :=
| CtorDefault
    (* no constructor written: [constructor(...args) { super(...args); }]
       under [extends], an empty constructor otherwise *)
| CtorBody (super_args : list value -> list value) (body : ctor_body)
| CtorAggregation (mixins : list (operand C)).
    (* the constructor of [base] in [aggregation], closed over [mixins] *)
Arguments CtorDefault {C}.
Arguments CtorBody {C} super_args body.
Arguments CtorAggregation {C} mixins.

(** A class: its heritage, its constructor, the own properties of its
    [prototype] object and the own properties of the class itself. *)
#[local] Set Warnings "-register-all".
Inductive cls :=
| Class (h : heritage cls) (k : ctor cls) (prototype static : obj).

Definition c_heritage (c : cls) := let 'Class h _ _ _ := c in h.
Definition c_ctor (c : cls) := let 'Class _ k _ _ := c in k.
Definition c_prototype (c : cls) := let 'Class _ _ p _ := c in p.
Definition c_static (c : cls) := let 'Class _ _ _ s := c in s.

(** The own properties class syntax gives to [C.prototype] and to [C]. *)
Definition prototype_object (name : string) (methods : list (key * descriptor)) : obj :=
  Obj (list_to_map ((KStr "constructor", DataDesc (VFun name) true false true)
                    :: methods)) true.

Definition class_object (name : string) (length : Z)
    (statics : list (key * descriptor)) : obj :=
  Obj (list_to_map ((KStr "prototype", DataDesc (VProto name) false false false)
                    :: statics
                    ++ [(KStr "length", DataDesc (VNum length) false false true);
                        (KStr "name", DataDesc (VStr name) false false true)])) true.

(** [class extends v]: [v] must be a constructor or [null]. *)
Definition class_heritage (v : operand cls) : result (heritage cls) :=
  match v with
  | OClass c => Ok (Extends c)
  | OPrim PNull => Ok ExtendsNull
  | OPrim _ => Throw TypeError
  end.

(** [C.k] and [C.prototype.k], found through the chain of [extends].  The
    members of the built-in [Function.prototype] and [Object.prototype], where
    every chain ends, are not modelled. *)
Fixpoint static_lookup (c : cls) (k : key) : option descriptor :=
  match props (c_static c) !! k with
  | Some d => Some d
  | None =>
      match c_heritage c with
      | Extends parent => static_lookup parent k
      | _ => None
      end
  end.

Fixpoint prototype_lookup (c : cls) (k : key) : option descriptor :=
  match props (c_prototype c) !! k with
  | Some d => Some d
  | None =>
      match c_heritage c with
      | Extends parent => prototype_lookup parent k
      | _ => None
      end
  end.

(** The function object of a class, by its handle: class syntax gives a
    class a [prototype] property that can be neither written nor redefined,
    and the class's function goes by the handle of that object. *)
Definition class_handle (c : cls) : option string :=
  match props (c_static c) !! KStr "prototype" with
  | Some (DataDesc (VProto f) _ _ _) => Some f
  | _ => None
  end.

(** [C.name]: a data property, an accessor (whose getter, when there is one,
    is called), or, where neither [C] nor a class that it extends has the
    property, the [name] of [Function.prototype], which is the empty string. *)
Definition class_name (c : cls) : result value :=
  match static_lookup c "name" with
  | Some (DataDesc v _ _ _) => Ok v
  | Some (AccessorDesc get _ _ _) =>
      if bool_decide (get = VUndefined) then Ok VUndefined else Outside
  | None => Ok (VStr "")
  end.

(** [this.constructor.name] in a constructor run by [new C], for [this]
    without an own [constructor].  The first prototype on the chain that owns
    [constructor] decides: class syntax makes the property hold the class
    itself, whose [name] is then read; a primitive in its place has no [name]
    ([undefined] and [null] cannot be read from at all); another function or
    object, or a getter, leads outside the tables.  Where no class on the chain
    owns [constructor], the chain ends in [Object.prototype], whose
    [constructor] is [Object], or, under [extends null], in nothing. *)
Fixpoint constructor_name (c : cls) : result value :=
  match props (c_prototype c) !! KStr "constructor" with
  | Some (DataDesc (VFun f) _ _ _) =>
      if bool_decide (class_handle c = Some f) then class_name c else Outside
  | Some (DataDesc (VProto _) _ _ _) | Some (DataDesc (VObj _) _ _ _) => Outside
  | Some (DataDesc VUndefined _ _ _) | Some (DataDesc VNull _ _ _) => Throw TypeError
  | Some (DataDesc _ _ _ _) => Ok VUndefined
  | Some (AccessorDesc get _ _ _) =>
      if bool_decide (get = VUndefined) then Throw TypeError else Outside
  | None =>
      match c_heritage c with
      | Extends parent => constructor_name parent
      | NoExtends => Ok (VStr "Object")
      | ExtendsNull => Throw TypeError
      end
  end.

(** ** Construction *)

(** [construct_with n c args]: the own properties of the object that the
    constructor of [c] initialises for a [new.target] on whose instances
    reading [this.constructor.name] gives [n]. *)
Fixpoint construct_with (n : result value) (c : cls) (args : list value) {struct c}
  : result obj :=
  let super := fun sargs =>
    match c_heritage c with
    | NoExtends => Ok empty_obj
    | ExtendsNull => Throw TypeError
    | Extends parent => construct_with n parent sargs
    end in
  match c_ctor c with
  | CtorDefault => super args
  | CtorBody super_args body =>
      this ← super (super_args args);
      body n args this
  | CtorAggregation mixins =>
      this ← super args;
      forEach (fun this mixin =>
                 source ← match mixin with
                          | OClass m => construct_with (constructor_name m) m []
                          | OPrim _ => Throw TypeError
                          end;
                 copyProps this source)
              mixins this
  end.

Record instance := Instance {
  i_class : cls;     (* the class whose [prototype] is the prototype of the object *)
  i_own : obj
}.

(** [new v(...args)] *)
Definition new (v : operand cls) (args : list value) : result instance :=
  match v with
  | OClass c => own ← construct_with (constructor_name c) c args; Ok (Instance c own)
  | OPrim _ => Throw TypeError
  end.

(** The property [k] of an object: its own one, else the inherited one. *)
Definition get_property (o : instance) (k : key) : option descriptor :=
  match props (i_own o) !! k with
  | Some d => Some d
  | None => prototype_lookup (i_class o) k
  end.

(** A class declaration [class name extends h { constructor...; methods; static statics }]. *)
Definition class_decl (name : string) (h : heritage cls) (k : ctor cls)
    (length : Z) (methods statics : list (key * descriptor)) : cls :=
  Class h k (prototype_object name methods) (class_object name length statics).

(** ** The capability aggregator *)

(** [mixin.prototype] as the source of [copyProps]: reading a property of
    [undefined] or [null] throws, and the other primitives have no
    [prototype], so that [Object.getOwnPropertyNames(undefined)] throws. *)
Definition mixin_prototype (mixin : operand cls) : result obj :=
  match mixin with
  | OClass m => Ok (c_prototype m)
  | OPrim _ => Throw TypeError
  end.

(** [mixin] itself as the source of [copyProps]. *)
Definition mixin_object (mixin : operand cls) : result obj :=
  match mixin with
  | OClass m => Ok (c_static m)
  | OPrim _ => Throw TypeError
  end.

Definition aggregation (baseClass : operand cls) (mixins : list (operand cls))
  : result cls :=
  (* class base extends baseClass { constructor(...args) { ... } } *)
  h ← class_heritage baseClass;
  let base := class_decl "base" h (CtorAggregation mixins) 0 [] [] in
  (* mixins.forEach((mixin) => { ... }) *)
  forEach (fun base mixin =>
             source ← mixin_prototype mixin;
             base_prototype ← copyProps (c_prototype base) source;
             source ← mixin_object mixin;
             base_static ← copyProps (c_static base) source;
             Ok (Class (c_heritage base) (c_ctor base) base_prototype base_static))
          mixins base.

(** ** The abstract-type guard *)

(** [if (this.constructor.name === name) throw new Error(msg);]  An own
    [constructor] of [this], placed by a constructor that ran before, would
    be read instead of the one on the prototype chain. *)
Definition guard (name msg : string) : ctor_body :=
  fun this_constructor_name _ this =>
    n ← match props this !! KStr "constructor" with
        | None => this_constructor_name
        | Some _ => Outside
        end;
    if strict_equals n (VStr name)
    then Throw (Error msg)
    else Ok this.

Definition no_super_args : list value -> list value := fun _ => [].

(** ** The classes of the interface-segregation example *)

Definition Document : cls := class_decl "Document" NoExtends CtorDefault 0 [] [].

Definition Machine : cls :=
  class_decl "Machine" NoExtends
    (CtorBody no_super_args (guard "Machine" "Machine is abstract!")) 0
    [(KStr "print", method "Machine.print");
     (KStr "fax", method "Machine.fax");
     (KStr "scan", method "Machine.scan")] [].

Definition MultiFunctionPrinter : cls :=
  class_decl "MultiFunctionPrinter" (Extends Machine) CtorDefault 0
    [(KStr "print", method "MultiFunctionPrinter.print");
     (KStr "fax", method "MultiFunctionPrinter.fax");
     (KStr "scan", method "MultiFunctionPrinter.scan")] [].

Definition OldFashionedPrinter : cls :=
  class_decl "OldFashionedPrinter" (Extends Machine) CtorDefault 0
    [(KStr "print", method "OldFashionedPrinter.print");
     (KStr "scan", method "OldFashionedPrinter.scan")] [].

Definition Printer : cls :=
  class_decl "Printer" NoExtends
    (CtorBody no_super_args (guard "Printer" "Printer is abstract!")) 0
    [(KStr "print", method "Printer.print")] [].

Definition Scanner : cls :=
  class_decl "Scanner" NoExtends
    (CtorBody no_super_args (guard "Scanner" "Scanner is abstract!")) 0
    [(KStr "scan", method "Scanner.scan")] [].

(** [class Photocopier extends aggregation(Printer, Scanner) { print() {} scan() {} }] *)
Definition Photocopier : result cls :=
  base ← aggregation (OClass Printer) [OClass Scanner];
  h ← class_heritage (OClass base);
  Ok (class_decl "Photocopier" h CtorDefault 0
        [(KStr "print", method "Photocopier.print");
         (KStr "scan", method "Photocopier.scan")] []).

(** ** Assignment and the store of instances *)

(** [this.k = v] in a constructor, for a key that the prototype chain leaves
    to the object itself (no inherited accessor or read-only property). *)
Definition put (this : obj) (k : key) (v : value) : result obj :=
  match props this !! k with
  | Some (DataDesc _ true e c) =>
      Ok (Obj (<[k := DataDesc v true e c]> (props this)) (extensible this))
  | Some _ => Throw TypeError
  | None =>
      if extensible this
      then Ok (Obj (<[k := field v]> (props this)) (extensible this))
      else Throw TypeError
  end.







(** ** The dependency-inversion example *)

(** [class RelationshipBrowser] and [class Relationships extends
    RelationshipBrowser], as classes.  [VObj 0] stands for the array that
    [this.data = []] creates; its contents are the [rows] below. *)
Definition RelationshipBrowser : cls :=
  class_decl "RelationshipBrowser" NoExtends
    (CtorBody no_super_args
       (guard "RelationshipBrowser" "RelationshipBrowser is abstract!")) 0
    [(KStr "findAllChildrenOf", method "RelationshipBrowser.findAllChildrenOf")] [].

Definition Relationships : cls :=
  class_decl "Relationships" (Extends RelationshipBrowser)
    (CtorBody no_super_args (fun _ _ this => put this "data" (VObj 0))) 0
    [(KStr "addParentAndChild", method "Relationships.addParentAndChild");
     (KStr "findAllChildrenOf", method "Relationships.findAllChildrenOf")] [].

(** The values that flow through the gateway. *)
Inductive data :=
| DUndefined
| DNull
| DStr (s : string)
| DObject (fields : list (string * data))
| DArray (items : list data).

(** [Object.freeze({ parent: 0, child: 1, sibling: 2 })] *)
Module Relationship.
Inductive t := parent | child | sibling.

(** The number the enumeration stores for each name. *)
Definition code (r : t) : Z :=
  match r with parent => 0 | child => 1 | sibling => 2 end.
End Relationship.

(** [new Person(name)] *)
Definition Person (name : data) : data := DObject [("name", name)].

Record row := Row { from : data; type : Relationship.t; to : data }.

(** [v.k], for a name [k] that the built-in prototypes do not define (such
    as [name]): an own field of an object, [undefined] elsewhere. *)
Definition get_field (v : data) (k : string) : result data :=
  match v with
  | DUndefined | DNull => Throw TypeError
  | DObject fields =>
      Ok (match List.find (fun f => String.eqb (fst f) k) fields with
          | Some f => snd f
          | None => DUndefined
          end)
  | DStr _ | DArray _ => Ok DUndefined
  end.

(** [a === b].  Two objects, or two arrays, are identical when they are one
    and the same object, which their contents do not tell. *)
Definition identical (a b : data) : result bool :=
  match a, b with
  | DUndefined, DUndefined => Ok true
  | DNull, DNull => Ok true
  | DStr s, DStr t => Ok (String.eqb s t)
  | DObject _, DObject _ => Outside
  | DArray _, DArray _ => Outside
  | _, _ => Ok false
  end.

(** [Relationships.prototype.addParentAndChild] on [this.data] *)
Definition addParentAndChild (p c : data) (rows : list row) : list row :=
  rows ++ [Row p Relationship.parent c; Row c Relationship.child p].

(** [Relationships.prototype.findAllChildrenOf] on [this.data]: the filter
    reads [r.from.name], which throws when [r.from] is [undefined] or [null]. *)
Fixpoint findAllChildrenOf (name : data) (rows : list row) : result (list data) :=
  match rows with
  | [] => Ok []
  | r :: rows =>
      n ← get_field (from r) "name";
      same ← identical n name;
      rest ← findAllChildrenOf name rows;
      Ok (if same
             && bool_decide (Relationship.code (type r) = Relationship.code Relationship.parent)
          then to r :: rest else rest)
  end.

(** An object as the consumer meets it: what each member name holds. *)
Inductive member :=
| Method (f : list data -> result data)
| Field (v : data).

Inductive browser :=
| BUndefined
| BNull
| BObject (members : string -> option member).

(** [browser.m(...args)] *)
Definition call_method (b : browser) (m : string) (args : list data) : result data :=
  match b with
  | BUndefined | BNull => Throw TypeError
  | BObject members =>
      match members m with
      | Some (Method f) => f args
      | _ => Throw TypeError
      end
  end.

(** An instance of [Relationships] holding [rows], and an instance of a class
    that extends [RelationshipBrowser] without overriding the query; of their
    members, the one the consumer calls is listed. *)
Definition Relationships_object (rows : list row) : browser :=
  BObject (fun m =>
    if String.eqb m "findAllChildrenOf"
    then Some (Method (fun args =>
                 children ← findAllChildrenOf (List.hd DUndefined args) rows;
                 Ok (DArray children)))
    else None).

Definition bare_browser_object : browser :=
  BObject (fun m =>
    if String.eqb m "findAllChildrenOf"
    then Some (Method (fun _ => Ok DUndefined))
    else None).

(** The one-character strings of an ASCII string. *)
Fixpoint characters (s : string) : list data :=
  match s with
  | EmptyString => []
  | String c s => DStr (String c EmptyString) :: characters s
  end.

(** The values a [for ... of] loop draws from [v]. *)
Definition iterate (v : data) : result (list data) :=
  match v with
  | DArray items => Ok items
  | DStr s => Ok (characters s)
  | _ => Throw TypeError
  end.

(** The results of [f] on the items of a list, in order, as far as [f] does
    not throw. *)
Definition traverse {A B} (f : A -> result B) : list A -> result (list B) :=
  fix traverse (xs : list A) : result (list B) :=
    match xs with
    | [] => Ok []
    | x :: xs => y ← f x; ys ← traverse xs; Ok (y :: ys)
    end.

(** An own field under the name [k]. *)
Definition has_field (k : string) (fields : list (string * data)) : bool :=
  existsb (fun f => String.eqb (fst f) k) fields.

(** String conversion in a template literal.  An object is converted by its
    [toString]: the inherited one answers [[object Object]]; an own field of
    that name is not a function, and then neither an own [valueOf] nor the
    inherited one yields a primitive, which is a TypeError.  An array joins
    the conversions of its items, [undefined] and [null] giving the empty
    string. *)
Fixpoint to_string (v : data) : result string :=
  match v with
  | DUndefined => Ok "undefined"
  | DNull => Ok "null"
  | DStr s => Ok s
  | DObject fields =>
      if has_field "toString" fields then Throw TypeError else Ok "[object Object]"
  | DArray items =>
      parts ← traverse (fun i => match i with
                                 | DUndefined | DNull => Ok ""
                                 | _ => to_string i
                                 end) items;
      Ok (String.concat "," parts)
  end.

(** The loop of the [Research] constructor: the lines logged, and how the
    loop completes. *)
Fixpoint log_children (children : list data) (console : list string)
  : list string * result unit :=
  match children with
  | [] => (console, Ok tt)
  | p :: children =>
      match n ← get_field p "name"; to_string n with
      | Ok name =>
          log_children children (console ++ ["John has a child named " ++ name])
      | Throw e => (console, Throw e)
      | Outside => (console, Outside)
      end
  end.

(** [new Research(browser)]: the console output and the completion. *)
Definition Research (b : browser) : list string * result unit :=
  match children ← call_method b "findAllChildrenOf" [DStr "John"]; iterate children with
  | Ok children => log_children children []
  | Throw e => ([], Throw e)
  | Outside => ([], Outside)
  end.

(** ** Notions used in the statements *)

(** What [copyProps] transfers from [source] under the key [k]. *)
Definition copied (source : obj) (k : key) : option descriptor :=
  match k with
  | KStr s => if regexp_test s then None else props source !! k
  | KSym _ => None
  end.

(** What a sequence of [copyProps] from [sources], in order, leaves under [k]. *)
Fixpoint last_copied (sources : list obj) (k : key) : option descriptor :=
  match sources with
  | [] => None
  | source :: sources =>
      match last_copied sources k with
      | Some d => Some d
      | None => copied source k
      end
  end.

(** The own properties of the objects that [new mixin()] yields, mixin by mixin. *)
Definition fresh_instances (mixins : list (operand cls)) (sources : list obj) : Prop :=
  Forall2 (fun mixin source => exists o, new mixin [] = Ok o /\ i_own o = source)
          mixins sources.

(** The two callbacks of [aggregation], by name. *)
Definition copy_mixin (base : cls) (mixin : operand cls) : result cls :=
  source ← mixin_prototype mixin;
  base_prototype ← copyProps (c_prototype base) source;
  source ← mixin_object mixin;
  base_static ← copyProps (c_static base) source;
  Ok (Class (c_heritage base) (c_ctor base) base_prototype base_static).

Definition instantiate_and_copy (this : obj) (mixin : operand cls) : result obj :=
  o ← new mixin [];
  copyProps this (i_own o).

(** [super(...sargs)] in a constructor of a class with heritage [h]. *)
Definition super_call (n : result value) (h : heritage cls) (sargs : list value) : result obj :=
  match h with
  | NoExtends => Ok empty_obj
  | ExtendsNull => Throw TypeError
  | Extends parent => construct_with n parent sargs
  end.

(** A class declared abstract: no [extends], and a constructor that is the
    guard on the class's own name. *)
Definition abstract_class (A : cls) (name msg : string) : Prop :=
  c_heritage A = NoExtends
  /\ (exists super_args, c_ctor A = CtorBody super_args (guard name msg))
  /\ constructor_name A = Ok (VStr name).

(** [D] extends [A], directly or not, through classes that write no
    constructor of their own. *)
Inductive plain_descendant (A : cls) : cls -> Prop :=
| plain_child D :
    c_heritage D = Extends A -> c_ctor D = CtorDefault -> plain_descendant A D
| plain_grandchild D parent :
    c_heritage D = Extends parent -> c_ctor D = CtorDefault ->
    plain_descendant A parent -> plain_descendant A D.

(** The guard's error at every construction: whatever the arguments, [new] of
    the composite throws the error with the message [msg]. *)
Definition always_throws (baseClass : operand cls) (mixins : list (operand cls))
    (msg : string) : Prop :=
  forall base args,
    aggregation baseClass mixins = Ok base ->
    new (OClass base) args = Throw (Error msg).

(** The guard property as stated, for one abstract class [A]: every class
    that extends [A] without writing a constructor can be instantiated. *)
Definition guard_spares_descendants (A : cls) : Prop :=
  forall D args, plain_descendant A D -> is_ok (new (OClass D) args) = true.

(** Base precedence, as a property of one composition and one construction:
    every own member that the base's construction path placed on the instance
    is still there, unchanged, when construction completes. *)
Definition base_precedence (baseClass : operand cls) (mixins : list (operand cls))
    (args : list value) : Prop :=
  forall base this o k d,
    aggregation baseClass mixins = Ok base ->
    super_call (constructor_name base) (c_heritage base) args = Ok this ->
    new (OClass base) args = Ok o ->
    props this !! k = Some d ->
    props (i_own o) !! k = Some d.

(** ** Further classes, used as examples *)

(** [class Machine extends Base {}] where [Base] is the class [Machine] of the
    example: a subclass that is declared, in another scope, under the same
    name. *)
Definition Machine_elsewhere : cls :=
  class_decl "Machine" (Extends Machine) CtorDefault 0 [] [].

(** [class Draft { constructor() { this.mode = 1; } report() {} static create() {} }]
    and [class Final] alike, with [this.mode = 2]: two providers that define
    the same members. *)
Definition Draft : cls :=
  class_decl "Draft" NoExtends
    (CtorBody no_super_args (fun _ _ this => put this "mode" (VNum 1))) 0
    [(KStr "report", method "Draft.report")]
    [(KStr "create", method "Draft.create")].

Definition Final : cls :=
  class_decl "Final" NoExtends
    (CtorBody no_super_args (fun _ _ this => put this "mode" (VNum 2))) 0
    [(KStr "report", method "Final.report")]
    [(KStr "create", method "Final.create")].

(** [class Configured { constructor() { this.mode = 0; } }]: a base whose
    constructor places a member on the instance. *)
Definition Configured : cls :=
  class_decl "Configured" NoExtends
    (CtorBody no_super_args (fun _ _ this => put this "mode" (VNum 0))) 0 [] [].

(** [class Sealed { constructor() { throw new Error('sealed'); } }] *)
Definition Sealed : cls :=
  class_decl "Sealed" NoExtends
    (CtorBody no_super_args (fun _ _ _ => Throw (Error "sealed"))) 0 [] [].

(** [class Tagged { [Symbol.iterator]() {} }]: a method under a symbol key. *)
Definition Tagged : cls :=
  class_decl "Tagged" NoExtends CtorDefault 0
    [(KSym 0, method "Tagged.iterator")] [].

(** [class Verbose { constructor() { this.length = 3; } toString() {}
    describe() {} static name() {} }]: a provider with members under names of
    the Exclusion Set. *)
Definition Verbose : cls :=
  class_decl "Verbose" NoExtends
    (CtorBody no_super_args (fun _ _ this => put this "length" (VNum 3))) 0
    [(KStr "toString", method "Verbose.toString");
     (KStr "describe", method "Verbose.describe")]
    [(KStr "name", method "Verbose.name")].

(** A second provider of the query: the children by parent name, in a table. *)
Definition ChildrenIndex_object (index : list (string * list data)) : browser :=
  BObject (fun m =>
    if String.eqb m "findAllChildrenOf"
    then Some (Method (fun args =>
                 Ok (DArray
                       match List.hd DUndefined args with
                       | DStr name =>
                           match List.find (fun e => String.eqb (fst e) name) index with
                           | Some e => snd e
                           | None => []
                           end
                       | _ => []
                       end)))
    else None).

(** The object implements the capability: its [findAllChildrenOf] is the
    function [f]. *)
Definition provides (b : browser) (f : list data -> result data) : Prop :=
  exists members,
    b = BObject members /\ members "findAllChildrenOf" = Some (Method f).

(** The object does not implement it: it has no callable [findAllChildrenOf]. *)
Definition lacks_capability (b : browser) : Prop :=
  forall f, ~ provides b f.

(** The relationships that the example stores. *)
Definition rels : list row :=
  addParentAndChild (Person (DStr "John")) (Person (DStr "Matt"))
    (addParentAndChild (Person (DStr "John")) (Person (DStr "Chris")) []).

(** ** The single-responsibility example: [Journal] *)

Module Journal.

(** The object [this.entries]: its own properties in the order in which the
    runtime enumerates them, each key being the number whose decimal form is
    the property name.  The names below [2^32 - 1] (array indices) come first,
    in ascending order; the others follow in the order of their creation. *)
Record t := Journal { entries : list (N * string) }.

(** [new Journal()] *)
Definition new : t := Journal [].

Definition array_index (k : N) : bool := (k <? 2 ^ 32 - 1)%N.

(** The static [Journal.count] holds a number reached from 0 by [++]. *)
Definition counter (count : N) : Prop := (count <= 2 ^ 53)%N.

(** [++Journal.count] on such a number: exact below [2^53], where the sum is
    rounded back to [2^53]. *)
Definition increment (count : N) : N :=
  if (count <? 2 ^ 53)%N then (count + 1)%N else count.

(** [entries[c] = entry] *)
Fixpoint set_entry (c : N) (entry : string) (entries : list (N * string))
  : list (N * string) :=
  match entries with
  | [] => [(c, entry)]
  | (k, v) :: rest =>
      if (k =? c)%N then (c, entry) :: rest
      else if array_index c && (negb (array_index k) || (c <? k)%N)
           then (c, entry) :: (k, v) :: rest
           else (k, v) :: set_entry c entry rest
  end.

(** [addEntry(text)] with [Journal.count = count]: the number returned, the
    new [Journal.count], and the journal. *)
Definition addEntry (text : string) (count : N) (this : t) : N * N * t :=
  let c := increment count in
  let entry := pretty c +:+ ": " +:+ text in
  (c, c, Journal (set_entry c entry (entries this))).

(** [removeEntry(index)]: [delete this.entries[index]] *)
Definition removeEntry (index : N) (this : t) : t :=
  Journal (List.filter (fun e => negb (fst e =? index)%N) (entries this)).

Definition newline : string := String (Ascii.ascii_of_nat 10) EmptyString.

(** [toString()]: [Object.values(this.entries).join('\n')] *)
Definition toString (this : t) : string :=
  String.concat newline (List.map snd (entries this)).

(** The numbers under which the journal holds entries. *)
Definition ids (this : t) : list N := List.map fst (entries this).

(** What the two operations maintain with respect to [Journal.count]: the
    entries are held under ascending numbers, none above the counter. *)
Definition consistent (count : N) (this : t) : Prop :=
  StronglySorted N.lt (ids this) /\ Forall (fun k => (k <= count)%N) (ids this).

(** [texts.forEach(text => this.addEntry(text))]: the new [Journal.count] and
    the journal. *)
Fixpoint addEntries (texts : list string) (count : N) (this : t) : N * t :=
  match texts with
  | [] => (count, this)
  | text :: texts =>
      let '(_, count, this) := addEntry text count this in
      addEntries texts count this
  end.

(** The line that [addEntry] stores for the [i]-th text added after [count]. *)
Definition numbered (count : N) (i : nat) (text : string) : N * string :=
  let c := (count + 1 + N.of_nat i)%N in (c, pretty c +:+ ": " +:+ text).

End Journal.

(** [Object.defineProperty(target, k, d)] does not throw. *)
Definition accepts (target : obj) (k : key) (d : descriptor) : bool :=
  match props target !! k with
  | None => extensible target
  | Some current => redefinition_allowed current d
  end.

(** The class [c] with another constructor. *)
Definition with_ctor (k : ctor cls) (c : cls) : cls :=
  Class (c_heritage c) k (c_prototype c) (c_static c).

(** A value whose conversion to a string does not throw: no object with an
    own [toString] is converted, neither the value itself nor, for an array,
    one of its items, at any depth. *)
Fixpoint convertible (v : data) : bool :=
  match v with
  | DObject fields => negb (has_field "toString" fields)
  | DArray items => forallb convertible items
  | _ => true
  end.

(** The string that the conversion of such a value gives. *)
Fixpoint text (v : data) : string :=
  match v with
  | DUndefined => "undefined"
  | DNull => "null"
  | DStr s => s
  | DObject _ => "[object Object]"
  | DArray items =>
      String.concat ","
        (List.map (fun i => match i with
                            | DUndefined | DNull => ""
                            | _ => text i
                            end) items)
  end.

(** A child for which the consumer logs a line: its [name] can be read, so it
    is neither [undefined] nor [null], and the name can be converted. *)
Definition readable (p : data) : bool :=
  match get_field p "name" with
  | Ok n => convertible n
  | _ => false
  end.

(** The children up to the first one for which no line is logged. *)
Fixpoint readable_prefix (children : list data) : list data :=
  match children with
  | [] => []
  | p :: children => if readable p then p :: readable_prefix children else []
  end.

(** The line that the consumer logs for a child. *)
Definition line_for (p : data) : string :=
  "John has a child named "
  ++ text match get_field p "name" with Ok n => n | _ => DUndefined end.

(** ** The substitution example: [Rectangle] and [Square] *)

(** The numbers of the language, as far as the example uses them: the
    product [a * b], which is commutative, the literal [10], and the
    conversion to a string in a template literal. *)
Class Numbers := {
  number : Type;
  times : number -> number -> number;
  ten : number;
  display : number -> string;
  times_comm : forall a b, times a b = times b a
}.

(** The integers, as long as no product leaves the range in which the
    numbers of the language are exact. *)
Definition integers : Numbers :=
  {| number := Z; times := Z.mul; ten := 10%Z; display := pretty;
     times_comm := Z.mul_comm |}.

(** The class of an object decides which setters run. *)
Inductive shape := IsRectangle | IsSquare.

Record rectangle `{Numbers} := Rect {
  class_of : shape;
  _width : number;
  _height : number
}.

(** [new Rectangle(width, height)] and [new Square(size)] *)
Definition Rectangle `{Numbers} (width height : number) : rectangle :=
  Rect _ IsRectangle width height.

Definition Square `{Numbers} (size : number) : rectangle :=
  Rect _ IsSquare size size.

(** [rc.width = value] and [rc.height = value]: the setters of [Rectangle],
    overridden in [Square]. *)
Definition set_width `{Numbers} (value : number) (rc : rectangle) : rectangle :=
  match class_of rc with
  | IsRectangle => Rect _ IsRectangle value (_height rc)
  | IsSquare => Rect _ IsSquare value value
  end.

Definition set_height `{Numbers} (value : number) (rc : rectangle) : rectangle :=
  match class_of rc with
  | IsRectangle => Rect _ IsRectangle (_width rc) value
  | IsSquare => Rect _ IsSquare value value
  end.

(** [rc.area] *)
Definition area `{Numbers} (rc : rectangle) : number :=
  times (_width rc) (_height rc).

(** [useIt(rc)]: the object after the call and the line logged. *)
Definition useIt `{Numbers} (rc : rectangle) : rectangle * string :=
  let width := _width rc in
  let rc := set_height ten rc in
  (rc, "Expected area of " +:+ display (times ten width) +:+ ", "
       +:+ "got " +:+ display (area rc)).

(** An assignment to one of the two properties. *)
Inductive assignment_to := ToWidth | ToHeight.

Definition set_side `{Numbers} (rc : rectangle) (a : assignment_to * number)
  : rectangle :=
  match fst a with
  | ToWidth => set_width (snd a) rc
  | ToHeight => set_height (snd a) rc
  end.

(** ** Properties of [forEach] and [copyProps] *)

Lemma forEach_ext {A S} (f g : S -> A -> result S) xs acc :
  (forall s x, f s x = g s x) -> forEach f xs acc = forEach g xs acc.
Proof.
  intros Hfg. revert acc. induction xs as [|x xs IH]; intros acc; simpl; [done|].
  rewrite Hfg. destruct (g acc x); simpl; [apply IH|done..].
Qed.

Lemma forEach_app {A S} (f : S -> A -> result S) xs ys acc :
  forEach f (xs ++ ys) acc = acc' ← forEach f xs acc; forEach f ys acc'.
Proof.
  revert acc. induction xs as [|x xs IH]; intros acc; simpl; [done|].
  destruct (f acc x); simpl; [apply IH|done..].
Qed.

Lemma bind_Ok {A B} (r : result A) (f : A -> result B) b :
  (a ← r; f a) = Ok b -> exists a, r = Ok a /\ f a = Ok b.
Proof. destruct r; simpl; [eauto|discriminate..]. Qed.

Lemma defineProperty_Ok target prop desc target' :
  defineProperty target prop desc = Ok target' ->
  exists d, desc = Some d
            /\ target' = Obj (<[prop := d]> (props target)) (extensible target).
Proof.
  unfold defineProperty. destruct desc as [d|]; [|discriminate].
  destruct (props target !! prop).
  - destruct (redefinition_allowed _ _); [|discriminate]. intros [= <-]. eauto.
  - destruct (extensible target); [|discriminate]. intros [= <-]. eauto.
Qed.

Lemma copyProp_Ok source target prop target' :
  copyProp source target prop = Ok target' ->
  extensible target' = extensible target
  /\ forall j, props target' !! j =
               if decide (j = prop)
               then from_option Some (props target !! j) (copied source j)
               else props target !! j.
Proof.
  unfold copyProp. intros H. apply bind_Ok in H as (matched & Hm & H).
  destruct prop as [s|n]; simpl in Hm; [|discriminate].
  injection Hm as <-.
  destruct (regexp_test s) eqn:Hs; simpl in H.
  - injection H as <-. split; [done|]. intros j. case_decide; [|done].
    subst j. simpl. by rewrite Hs.
  - apply defineProperty_Ok in H as (d & Hd & ->). simpl. split; [done|].
    intros j. unfold getOwnPropertyDescriptor in Hd. case_decide.
    + subst j. simpl. rewrite Hs, Hd. simpl. apply lookup_insert_eq.
    + by rewrite lookup_insert_ne.
Qed.

Lemma forEach_copyProp_Ok source l target target' :
  forEach (copyProp source) l target = Ok target' ->
  extensible target' = extensible target
  /\ forall j, props target' !! j =
               if decide (j ∈ l)
               then from_option Some (props target !! j) (copied source j)
               else props target !! j.
Proof.
  revert target. induction l as [|x l IH]; intros target H; simpl in H.
  - injection H as <-. split; [done|]. intros j.
    destruct (decide (j ∈ [])) as [Hin|]; [|done]. by apply elem_of_nil in Hin.
  - apply bind_Ok in H as (t1 & H1 & H).
    apply copyProp_Ok in H1 as [He1 H1]. apply IH in H as [He H].
    split; [congruence|]. intros j. rewrite H, !H1. clear IH H H1.
    destruct (decide (j = x)) as [->|Hne].
    + rewrite (decide_True (P := x ∈ x :: l)) by left.
      destruct (decide (x ∈ l)); [|done]. by destruct (copied source x).
    + destruct (decide (j ∈ l)) as [Hl|Hl].
      * by rewrite (decide_True (P := j ∈ x :: l)) by (by right).
      * rewrite (decide_False (P := j ∈ x :: l)); [done|].
        intros [?|?]%elem_of_cons; contradiction.
Qed.

Lemma own_key_listed (o : obj) (j : key) :
  is_Some (props o !! j) ->
  j ∈ (getOwnPropertyNames o ++ getOwnPropertySymbols o)%list.
Proof.
  intros [d Hd]. unfold getOwnPropertyNames, getOwnPropertySymbols, own_keys.
  assert (j ∈ (map_to_list (props o)).*1) as Hin.
  { apply list_elem_of_fmap. exists (j, d). split; [done|].
    by apply elem_of_map_to_list. }
  apply elem_of_app. rewrite !list_elem_of_In, !filter_In, <- !list_elem_of_In.
  destruct (is_string_key j); naive_solver.
Qed.

Lemma copied_None_absent source j :
  props source !! j = None -> copied source j = None.
Proof. intros H. destruct j; simpl; [|done]. rewrite H. by destruct (regexp_test _). Qed.

(** After a successful [copyProps], the target holds under each key what was
    transferred from the source, and what it held before under the others. *)
Lemma copyProps_Ok target source target' :
  copyProps target source = Ok target' ->
  extensible target' = extensible target
  /\ forall j, props target' !! j =
               from_option Some (props target !! j) (copied source j).
Proof.
  unfold copyProps. intros H. apply forEach_copyProp_Ok in H as [He H].
  split; [done|]. intros j. rewrite H. case_decide as Hin; [done|].
  rewrite copied_None_absent; [done|].
  destruct (props source !! j) eqn:Hj; [|done].
  exfalso. apply Hin, own_key_listed. eauto.
Qed.

Lemma copyProps_throws target source e :
  copyProps target source = Throw e -> e = TypeError.
Proof.
  unfold copyProps.
  generalize (getOwnPropertyNames source ++ getOwnPropertySymbols source)%list.
  intros l. revert target. induction l as [|x l IH]; intros target; simpl; [done|].
  destruct (copyProp source target x) as [t1|e1|] eqn:H1; simpl; [apply IH| |done].
  intros [= <-]. unfold copyProp, defineProperty in H1.
  destruct x; simpl in H1; [|by injection H1].
  repeat (case_match; simpl in H1; try discriminate); by injection H1.
Qed.

(** The copies are determined by the tables: none of them ends [Outside]. *)
Lemma forEach_determined {A S} (f : S -> A -> result S) xs acc :
  (forall s x, f s x <> Outside) -> forEach f xs acc <> Outside.
Proof.
  intros Hf. revert acc. induction xs as [|x xs IH]; intros acc; simpl; [done|].
  destruct (f acc x) as [acc'|e|] eqn:H; simpl; [apply IH|done|].
  by destruct (Hf acc x).
Qed.

Lemma copyProp_determined source target prop : copyProp source target prop <> Outside.
Proof.
  unfold copyProp, defineProperty. destruct prop; simpl; [|done].
  repeat (case_match; simpl; try done).
Qed.

Lemma copyProps_determined target source : copyProps target source <> Outside.
Proof. apply forEach_determined. intros s x. apply copyProp_determined. Qed.

(** ** Construction and aggregation, step by step *)

Lemma construct_with_eq n c args :
  construct_with n c args =
  match c_ctor c with
  | CtorDefault => super_call n (c_heritage c) args
  | CtorBody super_args body =>
      this ← super_call n (c_heritage c) (super_args args); body n args this
  | CtorAggregation mixins =>
      this ← super_call n (c_heritage c) args;
      forEach instantiate_and_copy mixins this
  end.
Proof.
  destruct c as [h k p s]. destruct k as [|sa body|mixins]; simpl; try done.
  destruct (super_call n h args) as [this|e|] eqn:Hs; unfold super_call in Hs;
    rewrite Hs; simpl; [|done..].
  apply forEach_ext. intros t [m|q]; unfold instantiate_and_copy; simpl; [|done].
  by destruct (construct_with (constructor_name m) m []).
Qed.

Lemma aggregation_eq baseClass mixins :
  aggregation baseClass mixins =
  h ← class_heritage baseClass;
  forEach copy_mixin mixins (class_decl "base" h (CtorAggregation mixins) 0 [] []).
Proof. reflexivity. Qed.

Lemma from_option_last_copied (x : option descriptor) source sources j :
  from_option Some (from_option Some x (copied source j)) (last_copied sources j)
  = from_option Some x (last_copied (source :: sources) j).
Proof. simpl. by destruct (last_copied sources j). Qed.

(** The class that the second loop of [aggregation] leaves. *)
Lemma forEach_copy_mixin_Ok mixins base0 base :
  forEach copy_mixin mixins base0 = Ok base ->
  c_heritage base = c_heritage base0
  /\ c_ctor base = c_ctor base0
  /\ exists classes,
       mixins = OClass <$> classes
       /\ (forall j, props (c_prototype base) !! j =
                     from_option Some (props (c_prototype base0) !! j)
                       (last_copied (c_prototype <$> classes) j))
       /\ (forall j, props (c_static base) !! j =
                     from_option Some (props (c_static base0) !! j)
                       (last_copied (c_static <$> classes) j)).
Proof.
  revert base0. induction mixins as [|mixin mixins IH]; intros base0 H; simpl in H.
  - injection H as <-. repeat split. by exists [].
  - apply bind_Ok in H as (base1 & H1 & H).
    apply IH in H as (Hh & Hk & classes & -> & Hp & Hs). clear IH.
    unfold copy_mixin in H1.
    destruct mixin as [m|q]; simpl in H1; [|discriminate].
    apply bind_Ok in H1 as (p1 & Hp1 & H1). apply bind_Ok in H1 as (s1 & Hs1 & H1).
    injection H1 as <-. simpl in *.
    apply copyProps_Ok in Hp1 as [_ Hp1]. apply copyProps_Ok in Hs1 as [_ Hs1].
    repeat split; [done..|]. exists (m :: classes). repeat split.
    + intros j. rewrite Hp, Hp1. apply from_option_last_copied.
    + intros j. rewrite Hs, Hs1. apply from_option_last_copied.
Qed.

(** The object that the loop of the constructor of [base] leaves. *)
Lemma forEach_instantiate_and_copy_Ok mixins this this' :
  forEach instantiate_and_copy mixins this = Ok this' ->
  extensible this' = extensible this
  /\ exists sources,
       fresh_instances mixins sources
       /\ forall j, props this' !! j =
                    from_option Some (props this !! j) (last_copied sources j).
Proof.
  revert this. induction mixins as [|mixin mixins IH]; intros this H; simpl in H.
  - injection H as <-. split; [done|]. exists []. split; [constructor|done].
  - apply bind_Ok in H as (this1 & H1 & H).
    apply IH in H as (He & sources & Hfresh & Hl). clear IH.
    unfold instantiate_and_copy in H1. apply bind_Ok in H1 as (o & Ho & H1).
    apply copyProps_Ok in H1 as [He1 H1]. split; [congruence|].
    exists (i_own o :: sources). split.
    + constructor; [eauto|done].
    + intros j. rewrite Hl, H1. apply from_option_last_copied.
Qed.

Lemma aggregation_Ok baseClass mixins base :
  aggregation baseClass mixins = Ok base ->
  class_heritage baseClass = Ok (c_heritage base)
  /\ c_ctor base = CtorAggregation mixins
  /\ exists classes,
       mixins = OClass <$> classes
       /\ (forall j, props (c_prototype base) !! j =
                     from_option Some (props (prototype_object "base" []) !! j)
                       (last_copied (c_prototype <$> classes) j))
       /\ (forall j, props (c_static base) !! j =
                     from_option Some (props (class_object "base" 0 []) !! j)
                       (last_copied (c_static <$> classes) j)).
Proof.
  rewrite aggregation_eq. intros H. apply bind_Ok in H as (h & Hh & H).
  apply forEach_copy_mixin_Ok in H as (Hh' & Hk & classes & Hm & Hp & Hs).
  simpl in Hh', Hk. rewrite Hh'. repeat split; [done..|]. by exists classes.
Qed.

(** [new] of a composite: the base's constructor, then the copies. *)
Lemma new_composite_Ok base mixins args o :
  c_ctor base = CtorAggregation mixins ->
  new (OClass base) args = Ok o ->
  i_class o = base
  /\ exists this sources,
       super_call (constructor_name base) (c_heritage base) args = Ok this
       /\ fresh_instances mixins sources
       /\ extensible (i_own o) = extensible this
       /\ forall j, props (i_own o) !! j =
                    from_option Some (props this !! j) (last_copied sources j).
Proof.
  intros Hk H. unfold new in H. apply bind_Ok in H as (own & H & Ho).
  injection Ho as <-. split; [done|]. rewrite construct_with_eq, Hk in H.
  apply bind_Ok in H as (this & Hs & H).
  apply forEach_instantiate_and_copy_Ok in H as (He & sources & Hf & Hl).
  exists this, sources. by repeat split.
Qed.

(** ** Excluded names and the identity of the composite *)

(** Membership of a literal name in the Exclusion Set, by evaluation. *)
Ltac excluded := apply (bool_decide_unpack _); vm_compute; exact I.

Lemma copied_excluded source s :
  s ∈ exclusion_set -> copied source (KStr s) = None.
Proof. intros H. simpl. unfold regexp_test. by rewrite bool_decide_true. Qed.

Lemma last_copied_excluded sources s :
  s ∈ exclusion_set -> last_copied sources (KStr s) = None.
Proof.
  intros H. induction sources as [|source sources IH]; [done|].
  cbn [last_copied]. rewrite IH. by apply copied_excluded.
Qed.

Lemma last_copied_app_cons pre source post j :
  last_copied (pre ++ source :: post) j =
  match last_copied post j with
  | Some d => Some d
  | None => match copied source j with
            | Some d => Some d
            | None => last_copied pre j
            end
  end.
Proof.
  induction pre as [|x pre IH]; cbn [app last_copied]; [|rewrite IH];
    (destruct (last_copied post j); [done|]); by destruct (copied source j).
Qed.

Lemma last_copied_None sources j :
  Forall (fun source => copied source j = None) sources ->
  last_copied sources j = None.
Proof. induction 1 as [|x l Hx _ IH]; [done|]. cbn [last_copied]. by rewrite IH. Qed.

Lemma last_copied_is_Some sources source j :
  source ∈ sources -> is_Some (copied source j) -> is_Some (last_copied sources j).
Proof.
  intros Hin [d Hd]. apply list_elem_of_split in Hin as (pre & post & ->).
  rewrite last_copied_app_cons, Hd. destruct (last_copied post j); eauto.
Qed.

(** The composite keeps the name [base]. *)
Lemma aggregation_constructor_name baseClass mixins base :
  aggregation baseClass mixins = Ok base -> constructor_name base = Ok (VStr "base").
Proof.
  intros H. apply aggregation_Ok in H as (_ & _ & classes & _ & Hp & Hs).
  destruct base as [h k p s]. cbn [c_prototype] in Hp. cbn [c_static] in Hs.
  assert (props p !! KStr "constructor" = Some (DataDesc (VFun "base") true false true))
    as Hconstructor.
  { rewrite Hp, last_copied_excluded by excluded. reflexivity. }
  assert (props s !! KStr "prototype" = Some (DataDesc (VProto "base") false false false))
    as Hprototype.
  { rewrite Hs, last_copied_excluded by excluded. reflexivity. }
  assert (props s !! KStr "name" = Some (DataDesc (VStr "base") false false true))
    as Hname.
  { rewrite Hs, last_copied_excluded by excluded. reflexivity. }
  cbn [constructor_name c_prototype]. rewrite Hconstructor.
  unfold class_handle, class_name. cbn [c_static static_lookup].
  rewrite Hprototype, Hname. by rewrite bool_decide_true.
Qed.

(** ** Abstract classes *)

Lemma guard_outcome A name msg n args :
  abstract_class A name msg ->
  construct_with n A args =
  (v ← n; if strict_equals v (VStr name) then Throw (Error msg) else Ok empty_obj).
Proof.
  intros (Hh & [sa Hk] & _). rewrite construct_with_eq, Hk, Hh. reflexivity.
Qed.

Lemma new_abstract A name msg args :
  abstract_class A name msg -> new (OClass A) args = Throw (Error msg).
Proof.
  intros HA. unfold new. rewrite (guard_outcome A name msg) by done.
  destruct HA as (_ & _ & ->). cbn [mbind result_bind]. unfold strict_equals.
  by rewrite bool_decide_true.
Qed.

Lemma plain_descendant_construct A D n args :
  plain_descendant A D -> construct_with n D args = construct_with n A args.
Proof.
  induction 1 as [D Hh Hk|D P Hh Hk _ IH]; rewrite construct_with_eq, Hk, Hh; simpl; done.
Qed.

Lemma instantiate_abstract_throws pre G post name msg this :
  abstract_class G name msg ->
  forEach instantiate_and_copy (pre ++ OClass G :: post) this =
  (_ ← forEach instantiate_and_copy pre this; Throw (Error msg)).
Proof.
  intros HG. rewrite forEach_app.
  destruct (forEach instantiate_and_copy pre this) as [this1|e|]; simpl; [|done..].
  unfold instantiate_and_copy. by rewrite (new_abstract G name msg).
Qed.

(** ** The union of the members on the instances that exist *)

(** Every member that the base or a provider contributes is found on an
    instance of the composite, whenever constructing the instance succeeds:
    a member of the prototype of a provider, a member of the base or of its
    ancestors, an own property of the object [new mixin()], and an own property
    placed by the base's constructor. *)
Lemma union_on_instances baseClass mixins base args o :
  aggregation baseClass mixins = Ok base ->
  new (OClass base) args = Ok o ->
  (forall m s, OClass m ∈ mixins -> regexp_test s = false ->
     is_Some (props (c_prototype m) !! KStr s) -> is_Some (get_property o (KStr s)))
  /\ (forall b k, baseClass = OClass b ->
        is_Some (prototype_lookup b k) -> is_Some (get_property o k))
  /\ (forall mixin om s, mixin ∈ mixins -> new mixin [] = Ok om ->
        regexp_test s = false ->
        is_Some (props (i_own om) !! KStr s) -> is_Some (props (i_own o) !! KStr s))
  /\ (forall this k,
        super_call (constructor_name base) (c_heritage base) args = Ok this ->
        is_Some (props this !! k) -> is_Some (props (i_own o) !! k)).
Proof.
  intros Hagg Hnew.
  pose proof Hagg as (Hh & Hk & classes & Hm & Hp & _)%aggregation_Ok.
  destruct (new_composite_Ok base mixins args o Hk Hnew)
    as (Hc & this & sources & Hsuper & Hfresh & _ & Hown).
  subst mixins.
  assert (forall k, is_Some (props (c_prototype base) !! k) -> is_Some (get_property o k))
    as Hproto.
  { intros k [d Hd]. unfold get_property. destruct (props (i_own o) !! k); [eauto|].
    rewrite Hc. destruct base as [h ct p st]. simpl in *. rewrite Hd. eauto. }
  repeat split.
  - intros m s Hin Hs Hm. apply Hproto. rewrite Hp.
    apply list_elem_of_fmap in Hin as (m' & [= <-] & Hin).
    destruct (last_copied_is_Some (c_prototype <$> classes) (c_prototype m) (KStr s))
      as [d ->]; [by apply list_elem_of_fmap_2| |by eauto].
    simpl. by rewrite Hs.
  - intros b k -> Hb. unfold get_property.
    destruct (props (i_own o) !! k); [eauto|]. rewrite Hc.
    simpl in Hh. injection Hh as Hh. destruct base as [h ct p st]. simpl in *.
    destruct (props p !! k); [eauto|]. by rewrite <- Hh.
  - intros mixin om s Hin Hom Hs Hm. rewrite Hown.
    apply list_elem_of_lookup in Hin as [i Hi].
    destruct (Forall2_lookup_l _ _ _ _ _ Hfresh Hi) as (source & Hsrc & om' & Hom' & <-).
    assert (om' = om) as -> by congruence.
    destruct (last_copied_is_Some sources (i_own om) (KStr s)) as [d ->];
      [by eapply list_elem_of_lookup_2| |by eauto].
    simpl. by rewrite Hs.
  - intros this' k Hthis' Hk'. assert (this' = this) as -> by congruence.
    rewrite Hown. destruct (last_copied sources k); simpl; eauto.
Qed.

(** C1: the union of the members of [Printer] and [Scanner] on the composite
    of the repository, evaluated.  [aggregation(Printer, Scanner)] is built and
    its prototype chain answers [print] with [Printer]'s method and [scan] with
    [Scanner]'s, but [new] of the composite throws for all arguments, so no
    instance exists on which the two could be invoked. *)
Theorem Printer_Scanner_composite_has_no_instance :
  is_ok (aggregation (OClass Printer) [OClass Scanner]) = true
  /\ (base ← aggregation (OClass Printer) [OClass Scanner];
      Ok (prototype_lookup base "print", prototype_lookup base "scan"))
     = Ok (Some (method "Printer.print"), Some (method "Scanner.scan"))
  /\ forall args,
       (base ← aggregation (OClass Printer) [OClass Scanner]; new (OClass base) args)
       = Throw (Error "Scanner is abstract!").
Proof.
  split; [by vm_compute|]. split; [by vm_compute|]. intros args. by vm_compute.
Qed.

(** ** Providers with an abstract-type guard *)

Lemma composite_of_abstract_throws pre G post name msg base n args :
  abstract_class G name msg ->
  c_ctor base = CtorAggregation (pre ++ OClass G :: post) ->
  construct_with n base args =
  (this ← super_call n (c_heritage base) args;
   _ ← forEach instantiate_and_copy pre this;
   Throw (Error msg)).
Proof.
  intros HG Hk. rewrite construct_with_eq, Hk.
  destruct (super_call n (c_heritage base) args) as [this|e|]; simpl; [|done..].
  by rewrite (instantiate_abstract_throws pre G post name msg).
Qed.

(** C10, refuted as stated: the guard's error is not what every construction
    throws.  Under the base [Sealed], whose constructor throws, the composite
    with the guarded provider [Scanner] throws the base's error; and of the two
    guarded providers [Printer] and [Scanner] over [Document], it is the error
    of the one listed first that is thrown, not [Scanner]'s. *)
Lemma guard_error_not_always_thrown :
  abstract_class Scanner "Scanner" "Scanner is abstract!"
  /\ ~ always_throws (OClass Sealed) [OClass Scanner] "Scanner is abstract!"
  /\ (forall args,
        (base ← aggregation (OClass Sealed) [OClass Scanner]; new (OClass base) args)
        = Throw (Error "sealed"))
  /\ ~ always_throws (OClass Document) [OClass Printer; OClass Scanner]
        "Scanner is abstract!"
  /\ (forall args,
        (base ← aggregation (OClass Document) [OClass Printer; OClass Scanner];
         new (OClass base) args)
        = Throw (Error "Printer is abstract!")).
Proof.
  assert (forall args,
            (base ← aggregation (OClass Sealed) [OClass Scanner]; new (OClass base) args)
            = Throw (Error "sealed")) as Hsealed.
  { intros args. vm_compute. reflexivity. }
  assert (forall args,
            (base ← aggregation (OClass Document) [OClass Printer; OClass Scanner];
             new (OClass base) args)
            = Throw (Error "Printer is abstract!")) as Hprinter.
  { intros args. vm_compute. reflexivity. }
  split; [|split; [|split; [done|split; [|done]]]].
  - split; [reflexivity|]. split; [by eexists|reflexivity].
  - intros H. specialize (Hsealed []).
    assert (is_ok (aggregation (OClass Sealed) [OClass Scanner]) = true) as Hok
      by (vm_compute; reflexivity).
    destruct (aggregation (OClass Sealed) [OClass Scanner]) as [base|e|] eqn:Hagg;
      [|discriminate Hok..].
    cbn [mbind result_bind] in Hsealed. rewrite (H base [] Hagg) in Hsealed.
    discriminate Hsealed.
  - intros H. specialize (Hprinter []).
    assert (is_ok (aggregation (OClass Document) [OClass Printer; OClass Scanner]) = true)
      as Hok by (vm_compute; reflexivity).
    destruct (aggregation (OClass Document) [OClass Printer; OClass Scanner])
      as [base|e|] eqn:Hagg; [|discriminate Hok..].
    cbn [mbind result_bind] in Hprinter. rewrite (H base [] Hagg) in Hprinter.
    discriminate Hprinter.
Qed.

(** C10, amended: a composite whose provider list contains a class [G] with
    an abstract-type guard cannot be instantiated, directly or through a
    subclass that writes no constructor: [new] never yields an instance.  Its
    constructor runs the base's constructor, then instantiates and copies the
    providers listed before [G], and what one of these throws is what [new]
    throws; when they all complete, [new] throws the error of [G]'s guard.  So
    it is the guard's error whenever the composite of the earlier providers
    can be instantiated with the same arguments.  In particular every
    [new Photocopier(...)] throws [Scanner is abstract!]. *)
Theorem guarded_provider_blocks_construction baseClass pre G post base name msg :
  abstract_class G name msg ->
  aggregation baseClass (pre ++ OClass G :: post) = Ok base ->
  (forall D args, D = base \/ plain_descendant base D ->
     new (OClass D) args =
     (this ← super_call (constructor_name D) (c_heritage base) args;
      _ ← forEach instantiate_and_copy pre this;
      Throw (Error msg))
     /\ forall o, new (OClass D) args <> Ok o)
  /\ (forall args,
        new (OClass base) args =
        (this ← super_call (Ok (VStr "base")) (c_heritage base) args;
         _ ← forEach instantiate_and_copy pre this;
         Throw (Error msg)))
  /\ (forall args base_pre o,
        aggregation baseClass pre = Ok base_pre ->
        new (OClass base_pre) args = Ok o ->
        new (OClass base) args = Throw (Error msg))
  /\ (is_ok Photocopier = true
      /\ forall args,
           (P ← Photocopier; new (OClass P) args) = Throw (Error "Scanner is abstract!")).
Proof.
  intros HG Hagg.
  pose proof Hagg as (Hh & Hk & _)%aggregation_Ok.
  assert (forall D args, D = base \/ plain_descendant base D ->
            new (OClass D) args =
            (this ← super_call (constructor_name D) (c_heritage base) args;
             _ ← forEach instantiate_and_copy pre this;
             Throw (Error msg))) as Hnew.
  { intros D args HD. unfold new.
    assert (construct_with (constructor_name D) D args
            = construct_with (constructor_name D) base args) as ->.
    { destruct HD as [->|HD]; [done|]. by apply plain_descendant_construct. }
    rewrite (composite_of_abstract_throws pre G post name msg) by done.
    destruct (super_call (constructor_name D) (c_heritage base) args) as [this|e|];
      simpl; [|done..].
    by destruct (forEach instantiate_and_copy pre this). }
  split; [|split; [|split]].
  - intros D args HD. split; [by apply Hnew|]. intros o. rewrite (Hnew D args HD).
    destruct (super_call (constructor_name D) (c_heritage base) args) as [this|e|];
      simpl; [|done..].
    by destruct (forEach instantiate_and_copy pre this).
  - intros args. rewrite (Hnew base args) by (by left).
    by rewrite (aggregation_constructor_name _ _ _ Hagg).
  - intros args base_pre o Hpre Hbase_pre.
    pose proof Hpre as (Hh' & Hk' & _)%aggregation_Ok.
    unfold new in Hbase_pre. apply bind_Ok in Hbase_pre as (own & Hown & _).
    rewrite construct_with_eq, Hk' in Hown.
    apply bind_Ok in Hown as (this & Hsuper & Hloop).
    assert (c_heritage base_pre = c_heritage base) as Heq by congruence.
    rewrite (aggregation_constructor_name _ _ _ Hpre), Heq in Hsuper.
    rewrite (Hnew base args) by (by left).
    rewrite (aggregation_constructor_name _ _ _ Hagg), Hsuper. simpl.
    by rewrite Hloop.
  - split; [by vm_compute|]. intros args. by vm_compute.
Qed.

Lemma guarded_provider_blocks_construction_witness :
  abstract_class Scanner "Scanner" "Scanner is abstract!"
  /\ forall args,
       (base ← aggregation (OClass Printer) ([] ++ OClass Scanner :: []);
        new (OClass base) args)
       = Throw (Error "Scanner is abstract!").
Proof.
  assert (abstract_class Scanner "Scanner" "Scanner is abstract!") as HS.
  { split; [reflexivity|]. split; [by eexists|reflexivity]. }
  split; [exact HS|]. intros args.
  assert (is_ok (aggregation (OClass Printer) ([] ++ OClass Scanner :: [])) = true)
    as Hok by (vm_compute; reflexivity).
  destruct (aggregation (OClass Printer) ([] ++ OClass Scanner :: []))
    as [base|e|] eqn:Hagg; [|discriminate Hok..].
  set (base_pre := class_decl "base" (Extends Printer) (CtorAggregation []) 0 [] []).
  assert (new (OClass base_pre) args = Ok (Instance base_pre empty_obj)) as Hnew.
  { vm_compute. reflexivity. }
  exact (proj1 (proj2 (proj2 (guarded_provider_blocks_construction
                                (OClass Printer) [] Scanner [] base "Scanner"
                                "Scanner is abstract!" HS Hagg)))
           args base_pre (Instance base_pre empty_obj) eq_refl Hnew).
Defined.

(** ** Last provider wins *)

Lemma mixins_split pre (Cj : cls) post classes :
  (pre ++ OClass Cj :: post)%list = OClass <$> classes ->
  exists cpre cpost,
    classes = (cpre ++ Cj :: cpost)%list /\ pre = OClass <$> cpre /\ post = OClass <$> cpost.
Proof.
  intros H. symmetry in H. apply fmap_app_inv in H as (cpre & rest & -> & H & ->).
  symmetry in H. apply fmap_cons_inv in H as (c & cpost & [= <-] & -> & ->).
  by exists cpre, cpost.
Qed.

Lemma last_copied_at (f : cls -> obj) cpre Cj cpost m d :
  regexp_test m = false ->
  props (f Cj) !! KStr m = Some d ->
  (forall C, C ∈ cpost -> props (f C) !! KStr m = None) ->
  last_copied (f <$> (cpre ++ Cj :: cpost)%list) (KStr m) = Some d.
Proof.
  intros Hm Hd Hpost. rewrite fmap_app, fmap_cons, last_copied_app_cons.
  rewrite last_copied_None.
  - simpl. by rewrite Hm, Hd.
  - apply Forall_fmap, Forall_forall. intros C HC.
    apply (copied_None_absent (f C)). by apply Hpost.
Qed.

(** C2: last provider wins.  When [Cj] stands in the provider list and no
    provider listed after it defines the non-excluded name [m], the composite's
    [m] is [Cj]'s, whatever the providers listed before [Cj] define under [m]
    (so of two providers [Ci], [Cj] that define [m], the later one wins, and
    listing them in the other order makes the other one win).  This holds for
    the members of the prototype (also as seen from an instance that has no own
    [m]), for the static members, and for the own members of the objects
    [new mixin()] that the constructor copies onto the instance. *)
Theorem last_wins baseClass pre Cj post base m d :
  aggregation baseClass (pre ++ OClass Cj :: post) = Ok base ->
  regexp_test m = false ->
  (props (c_prototype Cj) !! KStr m = Some d ->
   (forall C, OClass C ∈ post -> props (c_prototype C) !! KStr m = None) ->
   prototype_lookup base (KStr m) = Some d
   /\ forall args o, new (OClass base) args = Ok o ->
        props (i_own o) !! KStr m = None -> get_property o (KStr m) = Some d)
  /\ (props (c_static Cj) !! KStr m = Some d ->
      (forall C, OClass C ∈ post -> props (c_static C) !! KStr m = None) ->
      static_lookup base (KStr m) = Some d)
  /\ (forall args o oj,
        new (OClass base) args = Ok o ->
        new (OClass Cj) [] = Ok oj ->
        props (i_own oj) !! KStr m = Some d ->
        (forall C oc, C ∈ post -> new C [] = Ok oc -> props (i_own oc) !! KStr m = None) ->
        get_property o (KStr m) = Some d).
Proof.
  intros Hagg Hm.
  pose proof Hagg as (_ & Hk & classes & Hsplit & Hp & Hs)%aggregation_Ok.
  apply mixins_split in Hsplit as (cpre & cpost & -> & -> & ->).
  assert (forall C, C ∈ cpost -> OClass C ∈ (OClass <$> cpost : list (operand cls)))
    as Hin by (intros C HC; by apply list_elem_of_fmap_2).
  split; [|split].
  - intros Hd Hpost.
    assert (prototype_lookup base (KStr m) = Some d) as Hlookup.
    { destruct base as [h k p s]. cbn [prototype_lookup c_prototype].
      cbn [c_prototype] in Hp.
      by rewrite Hp, (last_copied_at c_prototype cpre Cj cpost m d) by eauto. }
    split; [done|]. intros args o Ho Hown.
    apply (new_composite_Ok _ _ _ _ Hk) in Ho as (Hc & _).
    unfold get_property. by rewrite Hown, Hc.
  - intros Hd Hpost. destruct base as [h k p s]. cbn [static_lookup c_static].
    cbn [c_static] in Hs.
    by rewrite Hs, (last_copied_at c_static cpre Cj cpost m d) by eauto.
  - intros args o oj Ho Hoj Hd Hpost.
    apply (new_composite_Ok _ _ _ _ Hk) in Ho
      as (_ & this & sources & _ & Hfresh & _ & Hown).
    apply Forall2_app_inv_l in Hfresh as (spre & rest & _ & Hrest & ->).
    apply Forall2_cons_inv_l in Hrest as (sj & spost & (oj' & Hoj' & <-) & Hspost & ->).
    assert (oj' = oj) as -> by congruence.
    unfold get_property. rewrite Hown, last_copied_app_cons, last_copied_None.
    + simpl. by rewrite Hm, Hd.
    + clear -Hspost Hpost. induction Hspost as [|C src cs srcs (oc & Hoc & <-) _ IH];
        constructor.
      * apply copied_None_absent. eapply Hpost; [left|done].
      * apply IH. intros C' oc' HC'. apply Hpost. by right.
Qed.

Lemma last_wins_witness :
  regexp_test "report" = false
  /\ (base ← aggregation (OClass Document) ([OClass Draft] ++ OClass Final :: []);
      Ok (prototype_lookup base (KStr "report")))
     = Ok (Some (method "Final.report")).
Proof.
  split; [reflexivity|].
  assert (is_ok (aggregation (OClass Document) ([OClass Draft] ++ OClass Final :: []))
          = true) as Hok by (vm_compute; reflexivity).
  destruct (aggregation (OClass Document) ([OClass Draft] ++ OClass Final :: []))
    as [base|e|] eqn:Hagg; [|discriminate Hok..].
  assert (props (c_prototype Final) !! KStr "report" = Some (method "Final.report"))
    as Hd by (vm_compute; reflexivity).
  assert (forall C : cls, OClass C ∈ ([] : list (operand cls)) ->
                          props (c_prototype C) !! KStr "report" = None) as Hpost.
  { intros C HC. inversion HC. }
  change (Ok (prototype_lookup base (KStr "report")) = Ok (Some (method "Final.report"))).
  f_equal.
  exact (proj1 (proj1 (last_wins (OClass Document) [OClass Draft] Final [] base
                         "report" (method "Final.report") Hagg eq_refl)
                  Hd Hpost)).
Defined.

(** ** Providers against the base, on the instance *)

(** [Configured]'s constructor sets [mode] to 0; on the instance of
    [aggregation(Configured, Draft)] it is 1, the value [Draft] sets. *)
Lemma Configured_Draft_mode :
  (base ← aggregation (OClass Configured) [OClass Draft];
   this ← super_call (constructor_name base) (c_heritage base) [];
   o ← new (OClass base) [];
   Ok (props this !! KStr "mode", props (i_own o) !! KStr "mode"))
  = Ok (Some (field (VNum 0)), Some (field (VNum 1))).
Proof. vm_compute. reflexivity. Qed.

(** C3, refuted as stated: the member [mode] that the base [Configured] placed
    on the instance does not survive the copy from the provider [Draft]. *)
Lemma base_precedence_fails :
  ~ base_precedence (OClass Configured) [OClass Draft] [].
Proof.
  intros H. pose proof Configured_Draft_mode as E.
  destruct (aggregation (OClass Configured) [OClass Draft]) as [base|e|] eqn:Hagg;
    [|discriminate E..].
  cbn [mbind result_bind] in E.
  destruct (super_call (constructor_name base) (c_heritage base) []) as [this|e|]
    eqn:Hsuper; [|discriminate E..].
  cbn [mbind result_bind] in E.
  destruct (new (OClass base) []) as [o|e|] eqn:Hnew; [|discriminate E..].
  cbn [mbind result_bind] in E. injection E as E1 E2.
  specialize (H base this o (KStr "mode") (field (VNum 0)) Hagg Hsuper Hnew E1).
  rewrite E2 in H. discriminate H.
Qed.

(** C3, amended: on the instance, the providers take precedence over the
    base.  A member that the base's construction path placed on the instance
    is kept when its name is in the Exclusion Set or when no object
    [new mixin()] owns a member of that name; when some of them own a
    transferable member of that name, the instance holds the one of the last
    such provider instead. *)
Theorem provider_copy_overwrites_base baseClass mixins base args this o :
  aggregation baseClass mixins = Ok base ->
  super_call (constructor_name base) (c_heritage base) args = Ok this ->
  new (OClass base) args = Ok o ->
  exists sources,
    fresh_instances mixins sources
    /\ (forall s, s ∈ exclusion_set ->
          props (i_own o) !! KStr s = props this !! KStr s)
    /\ (forall k, Forall (fun source => props source !! k = None) sources ->
          props (i_own o) !! k = props this !! k)
    /\ (forall k d, last_copied sources k = Some d -> props (i_own o) !! k = Some d).
Proof.
  intros Hagg Hsuper Hnew.
  pose proof Hagg as (_ & Hk & _)%aggregation_Ok.
  apply (new_composite_Ok _ _ _ _ Hk) in Hnew
    as (_ & this' & sources & Hsuper' & Hfresh & _ & Hown).
  assert (this' = this) as -> by congruence.
  exists sources. split; [done|]. split; [|split].
  - intros s Hs. by rewrite Hown, last_copied_excluded.
  - intros k Hnone. rewrite Hown, last_copied_None; [done|].
    eapply Forall_impl; [exact Hnone|]. intros source. apply copied_None_absent.
  - intros k d Hlast. by rewrite Hown, Hlast.
Qed.

Lemma provider_copy_overwrites_base_witness :
  (base ← aggregation (OClass Configured) [OClass Draft];
   o ← new (OClass base) [];
   Ok (props (i_own o) !! KStr "mode"))
  = Ok (Some (field (VNum 1))).
Proof.
  pose proof Configured_Draft_mode as E.
  destruct (aggregation (OClass Configured) [OClass Draft]) as [base|e|] eqn:Hagg;
    [|discriminate E..].
  cbn [mbind result_bind] in E |- *.
  destruct (super_call (constructor_name base) (c_heritage base) []) as [this|e|]
    eqn:Hsuper; [|discriminate E..].
  cbn [mbind result_bind] in E.
  destruct (new (OClass base) []) as [o|e|] eqn:Hnew; [|discriminate E..].
  cbn [mbind result_bind]. f_equal. clear E.
  destruct (provider_copy_overwrites_base (OClass Configured) [OClass Draft] base []
              this o Hagg Hsuper Hnew) as (sources & Hfresh & _ & _ & Hlast).
  apply Hlast.
  apply Forall2_cons_inv_l in Hfresh as (source & rest & (od & Hod & <-) & Hrest & ->).
  apply Forall2_nil_inv_l in Hrest as ->.
  assert ((od ← new (OClass Draft) []; Ok (copied (i_own od) (KStr "mode")))
          = Ok (Some (field (VNum 1)))) as E by (vm_compute; reflexivity).
  rewrite Hod in E. cbn [mbind result_bind] in E.
  assert (copied (i_own od) (KStr "mode") = Some (field (VNum 1))) as E'
    by congruence.
  cbn [last_copied]. by rewrite E'.
Defined.

(** ** The abstract-type guard *)

Lemma plain_descendant_differs A D :
  c_heritage A = NoExtends -> plain_descendant A D -> D <> A.
Proof. intros HA HD ->. inversion HD; congruence. Qed.

(** C4, refuted as stated: the guard of [Machine] does not pass for every
    strict descendant.  A class that extends [Machine] under the name
    [Machine] is another class than [Machine], and [new] of it runs the
    inherited guard, which throws. *)
Lemma guard_rejects_a_descendant :
  abstract_class Machine "Machine" "Machine is abstract!"
  /\ plain_descendant Machine Machine_elsewhere
  /\ Machine_elsewhere <> Machine
  /\ (forall args,
        new (OClass Machine_elsewhere) args = Throw (Error "Machine is abstract!"))
  /\ ~ guard_spares_descendants Machine.
Proof.
  assert (plain_descendant Machine Machine_elsewhere) as HD
    by (apply plain_child; reflexivity).
  split; [|split; [done|split; [|split]]].
  - split; [reflexivity|]. split; [by eexists|reflexivity].
  - by apply plain_descendant_differs.
  - intros args. reflexivity.
  - intros H. specialize (H Machine_elsewhere [] HD). discriminate H.
Qed.

(** C4, amended: the guard tells classes apart by name.  Executed while an
    object is constructed by [new D], the guard of an abstract class [A]
    throws the abstract-instantiation error exactly when reading
    [this.constructor.name] gives the name of [A].  So [new A] throws, and for
    a class [D] that extends [A] through classes without a constructor of
    their own (as [MultiFunctionPrinter] extends [Machine]), [new D] runs the
    inherited guard and returns the new object when the name of [D] is another
    one, and throws as [new A] does when [D] goes by the name of [A]. *)
Theorem abstract_guard_property A name msg D args :
  abstract_class A name msg ->
  construct_with (constructor_name D) A args =
    (n ← constructor_name D;
     if strict_equals n (VStr name) then Throw (Error msg) else Ok empty_obj)
  /\ new (OClass A) args = Throw (Error msg)
  /\ (plain_descendant A D ->
      new (OClass D) args =
      (n ← constructor_name D;
       if strict_equals n (VStr name) then Throw (Error msg)
       else Ok (Instance D empty_obj)))
  /\ (forall n, constructor_name D = Ok n ->
        (construct_with (constructor_name D) A args = Throw (Error msg)
         <-> n = VStr name)
        /\ (plain_descendant A D -> n <> VStr name ->
            new (OClass D) args = Ok (Instance D empty_obj))
        /\ (plain_descendant A D -> n = VStr name ->
            new (OClass D) args = Throw (Error msg))).
Proof.
  intros HA.
  pose proof (guard_outcome A name msg (constructor_name D) args HA) as Hguard.
  assert (plain_descendant A D ->
          new (OClass D) args =
          (n ← constructor_name D;
           if strict_equals n (VStr name) then Throw (Error msg)
           else Ok (Instance D empty_obj))) as Hnew.
  { intros HD. unfold new. rewrite (plain_descendant_construct A D) by done.
    rewrite Hguard. destruct (constructor_name D) as [n|e|]; simpl; [|done..].
    by destruct (strict_equals n (VStr name)). }
  split; [done|]. split; [by apply (new_abstract A name msg)|]. split; [done|].
  intros n Hn. rewrite Hguard. split; [|split].
  - rewrite Hn. simpl. unfold strict_equals. case_bool_decide; split; congruence.
  - intros HD Hne. rewrite Hnew, Hn by done. simpl. unfold strict_equals.
    by rewrite bool_decide_false.
  - intros HD ->. rewrite Hnew, Hn by done. simpl. unfold strict_equals.
    by rewrite bool_decide_true.
Qed.

Lemma abstract_guard_property_witness :
  abstract_class Machine "Machine" "Machine is abstract!"
  /\ new (OClass Machine) [] = Throw (Error "Machine is abstract!")
  /\ new (OClass MultiFunctionPrinter) []
     = Ok (Instance MultiFunctionPrinter empty_obj).
Proof.
  assert (abstract_class Machine "Machine" "Machine is abstract!") as HA.
  { split; [reflexivity|]. split; [by eexists|reflexivity]. }
  assert (plain_descendant Machine MultiFunctionPrinter) as HD.
  { apply plain_child; reflexivity. }
  split; [exact HA|].
  pose proof (abstract_guard_property Machine "Machine" "Machine is abstract!"
                MultiFunctionPrinter [] HA) as (_ & Hnew & _ & Hnamed).
  split; [exact Hnew|].
  destruct (Hnamed (VStr "MultiFunctionPrinter") eq_refl) as (_ & Hpass & _).
  apply Hpass; [exact HD|]. intros H. discriminate H.
Defined.

(** The guard on the classes of the repository. *)
Example Machine_is_abstract args :
  new (OClass Machine) args = Throw (Error "Machine is abstract!").
Proof. reflexivity. Qed.

Example OldFashionedPrinter_is_constructible args :
  is_ok (new (OClass OldFashionedPrinter) args) = true.
Proof. reflexivity. Qed.

Example RelationshipBrowser_is_abstract args :
  new (OClass RelationshipBrowser) args
  = Throw (Error "RelationshipBrowser is abstract!").
Proof. reflexivity. Qed.

Example Relationships_is_constructible args :
  (o ← new (OClass Relationships) args; Ok (props (i_own o) !! KStr "data"))
  = Ok (Some (field (VObj 0))).
Proof. vm_compute. reflexivity. Qed.

(** A composite over an abstract base is not named as the base is: the guard
    of [Machine] lets [new aggregation(Machine)] through. *)
Example composite_over_Machine_is_constructible args :
  (base ← aggregation (OClass Machine) []; o ← new (OClass base) args;
   Ok (get_property o (KStr "fax")))
  = Ok (Some (method "Machine.fax")).
Proof. vm_compute. reflexivity. Qed.

(** ** Failures at composition time *)

Lemma copyProp_throws source target prop e :
  copyProp source target prop = Throw e -> e = TypeError.
Proof.
  unfold copyProp, defineProperty. intros H.
  destruct prop; simpl in H; [|by injection H].
  repeat (case_match; simpl in H; try discriminate); by injection H.
Qed.

Lemma forEach_copyProp_symbol source l target n :
  KSym n ∈ l -> forEach (copyProp source) l target = Throw TypeError.
Proof.
  revert target. induction l as [|x l IH]; intros target Hin.
  - by apply elem_of_nil in Hin.
  - simpl. apply elem_of_cons in Hin as [<-|Hin]; [done|].
    destruct (copyProp source target x) as [t1|e|] eqn:H1; simpl.
    + by apply IH.
    + by rewrite (copyProp_throws _ _ _ _ H1).
    + by destruct (copyProp_determined source target x).
Qed.

Lemma copyProps_symbol target source n d :
  props source !! KSym n = Some d -> copyProps target source = Throw TypeError.
Proof.
  intros H. apply (forEach_copyProp_symbol _ _ _ n), own_key_listed. eauto.
Qed.

Lemma copy_mixin_throws base mixin e :
  copy_mixin base mixin = Throw e -> e = TypeError.
Proof.
  unfold copy_mixin. destruct mixin as [m|p]; simpl; [|by intros [= <-]].
  destruct (copyProps (c_prototype base) (c_prototype m)) as [p1|e1|] eqn:H1; simpl.
  - destruct (copyProps (c_static base) (c_static m)) as [s1|e2|] eqn:H2; simpl;
      [done| |done]. intros [= <-]. by eapply copyProps_throws.
  - intros [= <-]. by eapply copyProps_throws.
  - done.
Qed.

Lemma copy_mixin_determined base mixin : copy_mixin base mixin <> Outside.
Proof.
  unfold copy_mixin. destruct mixin as [m|p]; simpl; [|done].
  destruct (copyProps (c_prototype base) (c_prototype m)) as [p1|e1|] eqn:H1; simpl;
    [|done|by destruct (copyProps_determined (c_prototype base) (c_prototype m))].
  destruct (copyProps (c_static base) (c_static m)) as [s1|e2|] eqn:H2; simpl;
    [done..|by destruct (copyProps_determined (c_static base) (c_static m))].
Qed.

Lemma forEach_copy_mixin_throws mixins base e :
  forEach copy_mixin mixins base = Throw e -> e = TypeError.
Proof.
  revert base. induction mixins as [|m mixins IH]; intros base; simpl; [done|].
  destruct (copy_mixin base m) as [b1|e1|] eqn:H1; simpl; [apply IH| |done].
  intros [= <-]. by eapply copy_mixin_throws.
Qed.

Lemma aggregation_determined baseClass mixins : aggregation baseClass mixins <> Outside.
Proof.
  rewrite aggregation_eq. destruct baseClass as [c|[]]; simpl; try done;
    apply forEach_determined, copy_mixin_determined.
Qed.

Lemma forEach_copy_mixin_failing pre mixin post base :
  (forall b, copy_mixin b mixin = Throw TypeError) ->
  forEach copy_mixin (pre ++ mixin :: post) base = Throw TypeError.
Proof.
  intros Hm. rewrite forEach_app.
  destruct (forEach copy_mixin pre base) as [b1|e|] eqn:H1; simpl.
  - by rewrite Hm.
  - by rewrite (forEach_copy_mixin_throws _ _ _ H1).
  - by destruct (forEach_determined copy_mixin pre base copy_mixin_determined).
Qed.

(** The steps of the second loop depend on the two property tables of [base]
    only, not on what [base] extends or on its constructor. *)
Lemma copy_mixin_tables b b' mixin :
  c_prototype b = c_prototype b' -> c_static b = c_static b' ->
  match copy_mixin b mixin, copy_mixin b' mixin with
  | Ok r, Ok r' => c_prototype r = c_prototype r' /\ c_static r = c_static r'
  | Throw _, Throw _ => True
  | Outside, Outside => True
  | _, _ => False
  end.
Proof.
  destruct b as [h k p s], b' as [h' k' p' s']. simpl. intros -> ->.
  unfold copy_mixin. simpl.
  destruct (mixin_prototype mixin) as [sp|e|]; simpl; [|done..].
  destruct (copyProps p' sp) as [p1|e|]; simpl; [|done..].
  destruct (mixin_object mixin) as [ss|e|]; simpl; [|done..].
  by destruct (copyProps s' ss) as [s1|e|].
Qed.

Lemma forEach_copy_mixin_tables mixins b b' :
  c_prototype b = c_prototype b' -> c_static b = c_static b' ->
  is_ok (forEach copy_mixin mixins b) = is_ok (forEach copy_mixin mixins b').
Proof.
  revert b b'. induction mixins as [|m mixins IH]; intros b b' Hp Hs; simpl; [done|].
  pose proof (copy_mixin_tables b b' m Hp Hs) as H.
  destruct (copy_mixin b m) as [r|e|], (copy_mixin b' m) as [r'|e'|]; simpl;
    try done. destruct H. by apply IH.
Qed.

(** C5, refuted as stated, in both directions.  [Sealed] cannot be
    constructed, neither directly nor through the composite, yet
    [aggregation(Sealed)] returns the composite and the error appears only at
    [new]; [Document] can be constructed, yet [aggregation(Document, undefined)]
    throws at composition time. *)
Lemma composition_failure_counterexample :
  ((forall args, new (OClass Sealed) args = Throw (Error "sealed"))
   /\ is_ok (aggregation (OClass Sealed) []) = true
   /\ forall args,
        (base ← aggregation (OClass Sealed) []; new (OClass base) args)
        = Throw (Error "sealed"))
  /\ (is_ok (new (OClass Document) []) = true
      /\ aggregation (OClass Document) [OPrim PUndefined] = Throw TypeError).
Proof.
  split; [split; [|split]|split].
  - intros args. reflexivity.
  - reflexivity.
  - intros args. vm_compute. reflexivity.
  - reflexivity.
  - vm_compute. reflexivity.
Qed.

(** C5, amended: [aggregation] validates nothing and has no error of its own.
    Its outcome is settled at composition time, and whatever it throws is a
    TypeError of the runtime: it throws whenever the base value is a primitive
    other than [null], and whenever a provider value is a primitive, whatever
    the base.  A class as base never decides the outcome (composition with one
    class as base succeeds exactly when it does with any other, and with no
    providers it always succeeds, as it does over [null]), whether or not that
    class can be constructed: its constructor runs only when an instance is
    built, and only then does its error appear. *)
Theorem aggregation_failure_modes :
  (forall baseClass mixins e, aggregation baseClass mixins = Throw e -> e = TypeError)
  /\ (forall baseClass mixins, aggregation baseClass mixins <> Outside)
  /\ (forall p mixins, p <> PNull -> aggregation (OPrim p) mixins = Throw TypeError)
  /\ (forall baseClass pre p post,
        aggregation baseClass (pre ++ OPrim p :: post) = Throw TypeError)
  /\ (forall c c' mixins,
        is_ok (aggregation (OClass c) mixins) = is_ok (aggregation (OClass c') mixins))
  /\ (forall c, is_ok (aggregation (OClass c) []) = true)
  /\ is_ok (aggregation (OPrim PNull) []) = true
  /\ (forall c base args e,
        aggregation (OClass c) [] = Ok base ->
        construct_with (Ok (VStr "base")) c args = Throw e ->
        new (OClass base) args = Throw e).
Proof.
  split; [|split; [|split; [|split; [|split; [|split; [|split]]]]]].
  - intros baseClass mixins e. rewrite aggregation_eq.
    destruct (class_heritage baseClass) as [h|e'|] eqn:Hh; simpl.
    + apply forEach_copy_mixin_throws.
    + intros [= <-]. destruct baseClass as [c|[]]; simpl in Hh; congruence.
    + done.
  - apply aggregation_determined.
  - intros p mixins Hp. rewrite aggregation_eq. by destruct p.
  - intros baseClass pre p post. rewrite aggregation_eq.
    destruct (class_heritage baseClass) as [h|e|] eqn:Hh; simpl.
    + by rewrite forEach_copy_mixin_failing.
    + destruct baseClass as [c|[]]; simpl in Hh; congruence.
    + destruct baseClass as [c|[]]; simpl in Hh; congruence.
  - intros c c' mixins. rewrite !aggregation_eq. simpl.
    by apply forEach_copy_mixin_tables.
  - done.
  - done.
  - intros c base args e [= <-] Hc. unfold new.
    replace (constructor_name (class_decl "base" (Extends c) (CtorAggregation []) 0 [] []))
      with (Ok (VStr "base") : result value) by reflexivity.
    rewrite construct_with_eq. cbn [c_ctor c_heritage class_decl super_call forEach].
    rewrite Hc. reflexivity.
Qed.

Example composite_over_null :
  is_ok (aggregation (OPrim PNull) []) = true
  /\ forall args,
       (base ← aggregation (OPrim PNull) []; new (OClass base) args) = Throw TypeError.
Proof. split; [reflexivity|]. intros args. vm_compute. reflexivity. Qed.

(** ** The Exclusion Set *)

(** C6: a member of a provider under a name of the Exclusion Set is skipped
    without error (the step of [copyProps] for that name returns the target as
    it is), every successful [copyProps] leaves the target's entry under that
    name as it was, and so the composite keeps, under each such name, what the
    declaration of [base] gave it: its own [constructor], its [prototype],
    [name] and [length], and no [toString] of its own; the constructor of the
    composite and the name [base] are unchanged, and on an instance the entry
    under such a name is what the base's construction left. *)
Theorem exclusion_property s :
  s ∈ exclusion_set ->
  (forall source target, copyProp source target (KStr s) = Ok target)
  /\ (forall target source target',
        copyProps target source = Ok target' ->
        props target' !! KStr s = props target !! KStr s)
  /\ (forall baseClass mixins base,
        aggregation baseClass mixins = Ok base ->
        props (c_prototype base) !! KStr s = props (prototype_object "base" []) !! KStr s
        /\ props (c_static base) !! KStr s = props (class_object "base" 0 []) !! KStr s
        /\ c_ctor base = CtorAggregation mixins
        /\ constructor_name base = Ok (VStr "base")
        /\ forall args o this,
             new (OClass base) args = Ok o ->
             super_call (constructor_name base) (c_heritage base) args = Ok this ->
             props (i_own o) !! KStr s = props this !! KStr s).
Proof.
  intros Hs. split; [|split].
  - intros source target. unfold copyProp. simpl. unfold regexp_test.
    by rewrite bool_decide_true.
  - intros target source target' [_ H]%copyProps_Ok.
    by rewrite H, copied_excluded.
  - intros baseClass mixins base Hagg.
    pose proof Hagg as (_ & Hk & classes & _ & Hp & Hst)%aggregation_Ok.
    rewrite Hp, Hst, !last_copied_excluded by done.
    repeat split; [done|by eapply aggregation_constructor_name|].
    intros args o this Hnew Hsuper.
    apply (new_composite_Ok _ _ _ _ Hk) in Hnew
      as (_ & this' & sources & Hsuper' & _ & _ & Hown).
    assert (this' = this) as -> by congruence.
    by rewrite Hown, last_copied_excluded.
Qed.

Lemma exclusion_property_witness :
  "toString" ∈ exclusion_set
  /\ (base ← aggregation (OClass Document) [OClass Verbose];
      Ok (bool_decide (props (c_prototype base) !! KStr "toString"
                       = props (prototype_object "base" []) !! KStr "toString")))
     = Ok true.
Proof.
  assert ("toString" ∈ exclusion_set) as Hs by excluded.
  split; [exact Hs|].
  assert (is_ok (aggregation (OClass Document) [OClass Verbose]) = true) as Hok
    by (vm_compute; reflexivity).
  destruct (aggregation (OClass Document) [OClass Verbose]) as [base|e|] eqn:Hagg;
    [|discriminate Hok..].
  cbn [mbind result_bind]. f_equal. apply bool_decide_eq_true.
  exact (proj1 (proj2 (proj2 (exclusion_property "toString" Hs))
                  (OClass Document) [OClass Verbose] base Hagg)).
Defined.

Example Verbose_members_on_the_composite :
  (base ← aggregation (OClass Document) [OClass Verbose];
   o ← new (OClass base) [];
   Ok (get_property o (KStr "describe"), get_property o (KStr "toString"),
       props (c_static base) !! KStr "name", get_property o (KStr "length")))
  = Ok (Some (method "Verbose.describe"), None,
        Some (DataDesc (VStr "base") false false true), None).
Proof. vm_compute. reflexivity. Qed.

(** ** Isolation of instances *)





(** ** The abstraction gateway *)

(** The program of the example: [new Research(rels)]. *)
Example Research_rels :
  Research (Relationships_object rels)
  = (["John has a child named Chris"; "John has a child named Matt"], Ok tt).
Proof. reflexivity. Qed.

(** A browser that inherits the empty [findAllChildrenOf] of
    [RelationshipBrowser] answers [undefined], which cannot be iterated. *)
Example Research_bare_browser : Research bare_browser_object = ([], Throw TypeError).
Proof. reflexivity. Qed.

(** C8: constructing [Research] with an object that has no callable
    [findAllChildrenOf] (among them [undefined] and [null]) throws, and
    nothing has been logged: the call [browser.findAllChildrenOf('John')] is
    the first thing the constructor does, and it is a TypeError. *)
Theorem missing_capability b :
  lacks_capability b -> Research b = ([], Throw TypeError).
Proof.
  intros Hlacks. unfold Research.
  destruct b as [| |members]; try reflexivity. simpl.
  destruct (members "findAllChildrenOf") as [[f|v]|] eqn:Hm; try reflexivity.
  exfalso. apply (Hlacks f). by exists members.
Qed.

Lemma missing_capability_witness :
  lacks_capability (BObject (fun m => if String.eqb m "data" then Some (Field (DArray []))
                                      else None))
  /\ Research (BObject (fun m => if String.eqb m "data" then Some (Field (DArray []))
                                 else None))
     = ([], Throw TypeError).
Proof.
  assert (lacks_capability
            (BObject (fun m => if String.eqb m "data" then Some (Field (DArray []))
                               else None))) as Hlacks.
  { intros f (members & [= <-] & Hm). simpl in Hm. discriminate Hm. }
  split; [exact Hlacks|]. exact (missing_capability _ Hlacks).
Defined.

(** C9: two providers of the query whose [findAllChildrenOf] return the same
    results for every query are interchangeable behind the gateway: the same
    consumer, constructed against either, logs the same lines and completes in
    the same way, whatever else the two objects hold. *)
Theorem gateway_substitutability b1 b2 f1 f2 :
  provides b1 f1 ->
  provides b2 f2 ->
  (forall query, f1 query = f2 query) ->
  Research b1 = Research b2.
Proof.
  intros (m1 & -> & H1) (m2 & -> & H2) Hequiv.
  unfold Research, call_method. by rewrite H1, H2, Hequiv.
Qed.

Lemma ChildrenIndex_answers_as_Relationships query :
  (children ← findAllChildrenOf (List.hd DUndefined query) rels; Ok (DArray children))
  = Ok (DArray
          match List.hd DUndefined query with
          | DStr name =>
              match List.find (fun e => String.eqb (fst e) name)
                      [("John", [Person (DStr "Chris"); Person (DStr "Matt")])] with
              | Some e => snd e
              | None => []
              end
          | _ => []
          end).
Proof.
  destruct (List.hd DUndefined query) as [| |name| |]; try reflexivity.
  cbn -[String.eqb]. rewrite !String.eqb_refl. cbn -[String.eqb].
  rewrite ?andb_false_r. by destruct (String.eqb "John" name).
Qed.

Lemma gateway_substitutability_witness :
  Research (Relationships_object rels)
  = Research (ChildrenIndex_object
                [("John", [Person (DStr "Chris"); Person (DStr "Matt")])]).
Proof.
  eapply gateway_substitutability.
  - eexists. split; reflexivity.
  - eexists. split; reflexivity.
  - exact ChildrenIndex_answers_as_Relationships.
Defined.

(** ** The aggregator on providers that can be instantiated *)

(** [aggregation(Printer, Draft)]: the instance answers [print] with
    [Printer]'s method, [report] with [Draft]'s, and owns [mode]. *)
Example Printer_with_Draft :
  (base ← aggregation (OClass Printer) [OClass Draft];
   o ← new (OClass base) [];
   Ok (get_property o (KStr "print"), get_property o (KStr "report"),
       get_property o (KStr "mode"), static_lookup base (KStr "create")))
  = Ok (Some (method "Printer.print"), Some (method "Draft.report"),
        Some (field (VNum 1)), Some (method "Draft.create")).
Proof. vm_compute. reflexivity. Qed.

(** The order of the providers decides between [Draft] and [Final]. *)
Example Draft_then_Final :
  (base ← aggregation (OClass Document) [OClass Draft; OClass Final];
   o ← new (OClass base) [];
   Ok (get_property o (KStr "report"), get_property o (KStr "mode"),
       static_lookup base (KStr "create")))
  = Ok (Some (method "Final.report"), Some (field (VNum 2)),
        Some (method "Final.create")).
Proof. vm_compute. reflexivity. Qed.

Example Final_then_Draft :
  (base ← aggregation (OClass Document) [OClass Final; OClass Draft];
   o ← new (OClass base) [];
   Ok (get_property o (KStr "report"), get_property o (KStr "mode"),
       static_lookup base (KStr "create")))
  = Ok (Some (method "Draft.report"), Some (field (VNum 1)),
        Some (method "Draft.create")).
Proof. vm_compute. reflexivity. Qed.

(** A member that a provider inherits is not an own property of its
    prototype and is not copied: [fax] of [OldFashionedPrinter] comes from
    [Machine]. *)
Example inherited_member_is_not_copied :
  (base ← aggregation (OClass Document) [OClass OldFashionedPrinter];
   o ← new (OClass base) [];
   Ok (get_property o (KStr "print"), get_property o (KStr "fax")))
  = Ok (Some (method "OldFashionedPrinter.print"), None).
Proof. vm_compute. reflexivity. Qed.

(** ** The journal *)

Lemma set_entry_above c entry es :
  Forall (fun k => (k < c)%N) (List.map fst es) ->
  Journal.set_entry c entry es = (es ++ [(c, entry)])%list.
Proof.
  induction es as [|[k v] es IH]; intros H; [done|].
  apply Forall_cons in H as [Hk H]. simpl in Hk. cbn [Journal.set_entry].
  rewrite (proj2 (N.eqb_neq k c)) by lia.
  replace (Journal.array_index c && (negb (Journal.array_index k) || (c <? k)%N))
    with false.
  - by rewrite IH.
  - unfold Journal.array_index. symmetry. apply andb_false_iff.
    destruct (N.ltb_spec c (2 ^ 32 - 1)); [right|by left].
    apply orb_false_iff. split; [|apply N.ltb_ge; lia].
    apply negb_false_iff, N.ltb_lt. lia.
Qed.

Lemma consistent_step count this :
  Journal.consistent count this -> Journal.consistent (count + 1) this.
Proof.
  intros [Hs Hb]. split; [done|]. eapply Forall_impl; [exact Hb|]. simpl. lia.
Qed.

Lemma addEntry_below_limit text count this :
  (count < 2 ^ 53)%N ->
  Journal.consistent count this ->
  Journal.addEntry text count this =
  ((count + 1)%N, (count + 1)%N,
   Journal.Journal
     (Journal.entries this
      ++ [((count + 1)%N, pretty (count + 1)%N +:+ ": " +:+ text)])%list)
  /\ Journal.consistent (count + 1)
       (Journal.Journal
          (Journal.entries this
           ++ [((count + 1)%N, pretty (count + 1)%N +:+ ": " +:+ text)])%list).
Proof.
  intros Hcount [Hs Hb].
  assert (Journal.increment count = (count + 1)%N) as Hinc.
  { unfold Journal.increment. by rewrite (proj2 (N.ltb_lt _ _) Hcount). }
  split.
  - unfold Journal.addEntry. rewrite Hinc, set_entry_above; [done|].
    eapply Forall_impl; [exact Hb|]. simpl. lia.
  - unfold Journal.consistent, Journal.ids. cbn [Journal.entries].
    rewrite map_app. simpl. split.
    + apply StronglySorted_app. split; [|split; [done|]].
      * intros x1 x2 Hx1 ->%list_elem_of_singleton.
        rewrite Forall_forall in Hb. apply Hb in Hx1. lia.
      * repeat constructor.
    + apply Forall_app. split.
      * eapply Forall_impl; [exact Hb|]. simpl. lia.
      * by repeat constructor.
Qed.

(** X1: below [2^53], [addEntry] returns the successor of the counter, an
    identifier under which neither this journal nor any other journal of the
    program holds an entry; the new entry goes after the existing ones, which
    are left as they were, and the journals stay consistent with the new
    counter. *)
Theorem addEntry_fresh text count this :
  (count < 2 ^ 53)%N ->
  Journal.consistent count this ->
  exists this',
    Journal.addEntry text count this = ((count + 1)%N, (count + 1)%N, this')
    /\ Journal.entries this' =
       (Journal.entries this
        ++ [((count + 1)%N, pretty (count + 1)%N +:+ ": " +:+ text)])%list
    /\ ((count + 1)%N ∉ Journal.ids this)
    /\ Journal.consistent (count + 1) this'
    /\ forall other,
         Journal.consistent count other ->
         ((count + 1)%N ∉ Journal.ids other) /\ Journal.consistent (count + 1) other.
Proof.
  intros Hcount Hthis.
  assert (forall j, Journal.consistent count j -> (count + 1)%N ∉ Journal.ids j) as Hfresh.
  { intros j [_ Hb] Hin. rewrite Forall_forall in Hb. apply Hb in Hin. lia. }
  destruct (addEntry_below_limit text count this Hcount Hthis) as [Hadd Hnew].
  eexists. split; [exact Hadd|]. split; [reflexivity|].
  split; [by apply Hfresh|]. split; [exact Hnew|].
  intros other Hother. split; [by apply Hfresh|by apply consistent_step].
Qed.

Lemma addEntry_fresh_witness :
  exists this',
    Journal.addEntry "I cried today." 0 Journal.new = (1%N, 1%N, this')
    /\ Journal.entries this' = [(1%N, "1: I cried today.")].
Proof.
  assert (0 < 2 ^ 53)%N as Hcount by done.
  assert (Journal.consistent 0 Journal.new) as Hnew.
  { split; constructor. }
  destruct (addEntry_fresh "I cried today." 0 Journal.new Hcount Hnew)
    as (this' & Hadd & Hentries & _).
  exists this'. split; [exact Hadd|exact Hentries].
Defined.

Lemma append_assoc (a b c : string) : (a +:+ b) +:+ c = a +:+ (b +:+ c).
Proof.
  induction a as [|x a IH]; [reflexivity|].
  change (String x ((a +:+ b) +:+ c) = String x (a +:+ b +:+ c)). by rewrite IH.
Qed.

Lemma concat_snoc sep (lines : list string) line :
  String.concat sep (lines ++ [line])%list =
  match lines with
  | [] => line
  | _ => String.concat sep lines +:+ sep +:+ line
  end.
Proof.
  induction lines as [|x lines IH]; [done|].
  destruct lines as [|y lines]; [done|].
  change (x +:+ sep +:+ String.concat sep ((y :: lines) ++ [line])%list
          = (x +:+ sep +:+ String.concat sep (y :: lines)) +:+ sep +:+ line).
  rewrite IH, !append_assoc. done.
Qed.

(** X2: below [2^53], the text of the journal after [addEntry(text)] is the
    text before it, followed by a line break and the new line, which is the
    identifier in decimal, a colon and a space, and the text; on an empty
    journal it is that line alone. *)
Theorem addEntry_toString text count this :
  (count < 2 ^ 53)%N ->
  Journal.consistent count this ->
  Journal.toString (snd (Journal.addEntry text count this)) =
  match Journal.entries this with
  | [] => pretty (count + 1)%N +:+ ": " +:+ text
  | _ => Journal.toString this +:+ Journal.newline
         +:+ pretty (count + 1)%N +:+ ": " +:+ text
  end.
Proof.
  intros Hcount Hthis.
  destruct (addEntry_below_limit text count this Hcount Hthis) as [-> _].
  unfold Journal.toString. cbn [snd Journal.entries]. rewrite map_app. cbn [List.map snd].
  rewrite concat_snoc. by destruct (Journal.entries this).
Qed.

Lemma addEntry_toString_witness :
  Journal.toString
    (snd (Journal.addEntry "I ate a bug." 1
            (Journal.Journal [(1%N, "1: I cried today.")])))
  = "1: I cried today." +:+ Journal.newline +:+ "2: I ate a bug.".
Proof.
  assert (1 < 2 ^ 53)%N as Hcount by done.
  assert (Journal.consistent 1 (Journal.Journal [(1%N, "1: I cried today.")])) as Hj.
  { split; [repeat constructor|]. constructor; [simpl; lia|constructor]. }
  exact (addEntry_toString "I ate a bug." 1 _ Hcount Hj).
Defined.

Lemma filter_other_ids (index : N) (es : list (N * string)) :
  index ∉ List.map fst es ->
  List.filter (fun e => negb (fst e =? index)%N) es = es.
Proof.
  induction es as [|[k v] es IH]; intros Hin; [done|]. simpl in *.
  apply not_elem_of_cons in Hin as [Hne Hin].
  rewrite (proj2 (N.eqb_neq k index)) by done. simpl. by rewrite IH.
Qed.

(** X3: below [2^53], removing the entry that [addEntry] has just added gives
    the journal back, while the counter keeps its new value, so that the
    identifier is not handed out again: the next [addEntry] returns the
    following number. *)
Theorem removeEntry_addEntry text text' count this :
  (count + 1 < 2 ^ 53)%N ->
  Journal.consistent count this ->
  let '(c, count', this') := Journal.addEntry text count this in
  Journal.removeEntry c this' = this
  /\ fst (fst (Journal.addEntry text' count' (Journal.removeEntry c this')))
     = (c + 1)%N.
Proof.
  intros Hcount Hthis.
  assert (count < 2 ^ 53)%N as Hcount' by lia.
  destruct (addEntry_below_limit text count this Hcount' Hthis) as [-> _].
  assert ((count + 1)%N ∉ Journal.ids this) as Hfresh.
  { destruct Hthis as [_ Hb]. intros Hin. rewrite Forall_forall in Hb.
    apply Hb in Hin. lia. }
  set (this' := Journal.Journal _).
  assert (Journal.removeEntry (count + 1) this' = this) as Hremove.
  { unfold Journal.removeEntry, this'. cbn [Journal.entries].
    rewrite List.filter_app. simpl.
    rewrite N.eqb_refl. simpl. rewrite app_nil_r, filter_other_ids by done.
    by destruct this. }
  split; [done|]. rewrite Hremove. unfold Journal.addEntry, Journal.increment.
  by rewrite (proj2 (N.ltb_lt _ _) Hcount).
Qed.

Lemma removeEntry_addEntry_witness :
  let '(c, count', this') := Journal.addEntry "I cried today." 0 Journal.new in
  Journal.removeEntry c this' = Journal.new
  /\ fst (fst (Journal.addEntry "I ate a bug." count' (Journal.removeEntry c this')))
     = (c + 1)%N.
Proof.
  assert (0 + 1 < 2 ^ 53)%N as Hcount by done.
  assert (Journal.consistent 0 Journal.new) as Hnew by (split; constructor).
  exact (removeEntry_addEntry "I cried today." "I ate a bug." 0 Journal.new Hcount Hnew).
Defined.

Lemma Forall_filter_ids (P : N -> Prop) (p : N * string -> bool) es :
  Forall P (List.map fst es) -> Forall P (List.map fst (List.filter p es)).
Proof.
  induction es as [|e es IH]; intros H; [done|]. simpl in *.
  apply Forall_cons in H as [He H]. destruct (p e); simpl; [constructor|]; eauto.
Qed.

Lemma StronglySorted_filter_ids (p : N * string -> bool) es :
  StronglySorted N.lt (List.map fst es) ->
  StronglySorted N.lt (List.map fst (List.filter p es)).
Proof.
  induction es as [|e es IH]; intros H; [done|]. simpl in *.
  apply StronglySorted_inv in H as [H He]. destruct (p e); simpl; [|by apply IH].
  constructor; [by apply IH|]. by apply Forall_filter_ids.
Qed.

(** X4: [removeEntry(index)] removes the entry under [index] and nothing
    else: afterwards no entry is held under [index], the entries under the
    other identifiers are the same, in the same order; when there was no entry
    under [index] the journal is unchanged, so removing twice is removing
    once; and a journal consistent with the counter stays so. *)
Theorem removeEntry_exact index this :
  (index ∉ Journal.ids (Journal.removeEntry index this))
  /\ Journal.entries (Journal.removeEntry index this)
     = List.filter (fun e => negb (fst e =? index)%N) (Journal.entries this)
  /\ (forall k v, k <> index ->
        (k, v) ∈ Journal.entries (Journal.removeEntry index this)
        <-> (k, v) ∈ Journal.entries this)
  /\ (index ∉ Journal.ids this -> Journal.removeEntry index this = this)
  /\ Journal.removeEntry index (Journal.removeEntry index this)
     = Journal.removeEntry index this
  /\ (forall count, Journal.consistent count this ->
        Journal.consistent count (Journal.removeEntry index this)).
Proof.
  assert (index ∉ Journal.ids (Journal.removeEntry index this)) as Hgone.
  { unfold Journal.ids, Journal.removeEntry. cbn [Journal.entries].
    intros ([k v] & Hk & Hin)%list_elem_of_fmap. simpl in Hk. subst k.
    apply list_elem_of_In, filter_In in Hin as [_ Hin]. simpl in Hin.
    by rewrite N.eqb_refl in Hin. }
  assert (forall j, index ∉ Journal.ids j -> Journal.removeEntry index j = j) as Hnoop.
  { intros [es] Hin. unfold Journal.removeEntry. cbn [Journal.entries].
    by rewrite filter_other_ids. }
  split; [done|]. split; [done|]. split; [|split; [by apply Hnoop|split]].
  - intros k v Hne. unfold Journal.removeEntry. cbn [Journal.entries].
    rewrite !list_elem_of_In, filter_In. simpl.
    rewrite (proj2 (N.eqb_neq k index)) by done. simpl. tauto.
  - by apply Hnoop.
  - intros count [Hs Hb]. unfold Journal.consistent, Journal.ids, Journal.removeEntry in *.
    cbn [Journal.entries]. split.
    + by apply StronglySorted_filter_ids.
    + by apply Forall_filter_ids.
Qed.

(** X5: as long as the counter stays within [2^53], a run of [addEntry]
    calls numbers the texts consecutively after the counter and appends their
    lines in the order of the calls, leaving the earlier entries as they were;
    the counter advances by the number of calls and the journal stays
    consistent with it. *)
Theorem addEntries_numbered texts count this :
  (count + N.of_nat (length texts) <= 2 ^ 53)%N ->
  Journal.consistent count this ->
  let '(count', this') := Journal.addEntries texts count this in
  count' = (count + N.of_nat (length texts))%N
  /\ Journal.entries this'
     = (Journal.entries this ++ imap (Journal.numbered count) texts)%list
  /\ Journal.consistent count' this'.
Proof.
  revert count this. induction texts as [|text texts IH]; intros count this Hcount Hthis.
  - simpl. rewrite app_nil_r. split; [lia|done].
  - cbn [Journal.addEntries]. cbn [length] in Hcount.
    destruct (addEntry_below_limit text count this) as [-> Hthis1]; [lia|done|].
    set (this1 := Journal.Journal _) in *.
    assert (Journal.entries this1 =
            (Journal.entries this
             ++ [((count + 1)%N, pretty (count + 1)%N +:+ ": " +:+ text)])%list)
      as He by reflexivity.
    specialize (IH (count + 1)%N this1).
    destruct (Journal.addEntries texts (count + 1) this1) as [count' this'].
    destruct IH as (-> & He' & Hthis'); [lia|done|].
    split; [cbn [length]; lia|]. split; [|done].
    rewrite He', He, <- app_assoc. f_equal. cbn [imap app]. f_equal.
    + unfold Journal.numbered. by rewrite N.add_0_r.
    + apply imap_ext. intros i t _. unfold Journal.numbered. simpl.
      by replace (count + 1 + 1 + N.of_nat i)%N with (count + 1 + N.of_nat (S i))%N by lia.
Qed.

Lemma addEntries_numbered_witness :
  Journal.toString
    (snd (Journal.addEntries ["I cried today."; "I ate a bug."] 0 Journal.new))
  = "1: I cried today." +:+ Journal.newline +:+ "2: I ate a bug.".
Proof.
  assert (0 + N.of_nat (length ["I cried today."; "I ate a bug."]) <= 2 ^ 53)%N
    as Hcount by done.
  assert (Journal.consistent 0 Journal.new) as Hnew by (split; constructor).
  pose proof (addEntries_numbered ["I cried today."; "I ate a bug."] 0 Journal.new
                Hcount Hnew) as H.
  destruct (Journal.addEntries ["I cried today."; "I ate a bug."] 0 Journal.new)
    as [count' this'].
  destruct H as (_ & He & _). unfold Journal.toString. cbn [snd].
  rewrite He. reflexivity.
Defined.

(** Where the counter has reached [2^53] the identifiers repeat, and the new
    entry takes the place of the one that held the identifier. *)
Example addEntry_at_the_limit :
  Journal.addEntry "second" (2 ^ 53)
    (Journal.Journal [((2 ^ 53)%N, "9007199254740992: first")])
  = ((2 ^ 53)%N, (2 ^ 53)%N,
     Journal.Journal [((2 ^ 53)%N, "9007199254740992: second")]).
Proof. vm_compute. reflexivity. Qed.

(** ** More on [copyProps] *)

Lemma listed_own_key (o : obj) (j : key) :
  j ∈ (getOwnPropertyNames o ++ getOwnPropertySymbols o)%list ->
  is_Some (props o !! j).
Proof.
  unfold getOwnPropertyNames, getOwnPropertySymbols, own_keys.
  rewrite elem_of_app, !list_elem_of_In, !filter_In, <- !list_elem_of_In.
  intros [[Hin _]|[Hin _]];
    apply list_elem_of_fmap in Hin as ([k d] & -> & Hin);
    apply elem_of_map_to_list in Hin; eauto.
Qed.

(** X6: what a successful [copyProps] does and does not do.  It gives the
    target every own property of the source that has a string name outside
    the Exclusion Set, with the source's descriptor; it removes nothing, it
    leaves the properties under all other keys and the extensibility of the
    target as they were; and it has not copied any symbol-keyed property,
    because a source that owns one makes it throw. *)
Theorem copyProps_frame target source target' :
  copyProps target source = Ok target' ->
  (forall s d, regexp_test s = false -> props source !! KStr s = Some d ->
     props target' !! KStr s = Some d)
  /\ (forall j, is_Some (props target !! j) -> is_Some (props target' !! j))
  /\ (forall j, copied source j = None -> props target' !! j = props target !! j)
  /\ extensible target' = extensible target
  /\ (forall n, props source !! KSym n = None).
Proof.
  intros H. pose proof H as [He Hl]%copyProps_Ok. repeat split.
  - intros s d Hs Hd. rewrite Hl. simpl. by rewrite Hs, Hd.
  - intros j [d Hd]. rewrite Hl, Hd. destruct (copied source j); simpl; eauto.
  - intros j Hj. by rewrite Hl, Hj.
  - done.
  - intros n. destruct (props source !! KSym n) as [d|] eqn:Hn; [|done].
    by rewrite (copyProps_symbol target source n d Hn) in H.
Qed.

Lemma copyProps_frame_witness :
  (base_prototype ← copyProps (prototype_object "base" []) (c_prototype Scanner);
   Ok (props base_prototype !! KStr "scan"))
  = Ok (Some (method "Scanner.scan")).
Proof.
  assert (is_ok (copyProps (prototype_object "base" []) (c_prototype Scanner)) = true)
    as Hok by (vm_compute; reflexivity).
  destruct (copyProps (prototype_object "base" []) (c_prototype Scanner))
    as [target'|e|] eqn:H; [|discriminate Hok..].
  cbn [mbind result_bind]. f_equal.
  apply (proj1 (copyProps_frame _ _ _ H) "scan" (method "Scanner.scan"));
    vm_compute; reflexivity.
Defined.

Lemma redefinition_allowed_same d : redefinition_allowed d d = true.
Proof.
  unfold redefinition_allowed.
  destruct d as [v w e c|g s e c], c; simpl; try done;
    rewrite ?bool_decide_true by done; simpl; try done.
  by destruct w.
Qed.

Lemma forEach_copyProp_again source l target :
  (forall k, k ∈ l -> props target !! k =
                      from_option Some (props target !! k) (copied source k)) ->
  (forall k, k ∈ l -> is_Some (props source !! k)) ->
  (forall n, props source !! KSym n = None) ->
  forEach (copyProp source) l target = Ok target.
Proof.
  intros Hsame Hown Hsym. induction l as [|x l IH]; [done|]. simpl.
  assert (copyProp source target x = Ok target) as ->.
  { specialize (Hsame x ltac:(left)). specialize (Hown x ltac:(left)).
    destruct x as [s|n]; [|by rewrite Hsym in Hown; destruct Hown].
    unfold copyProp. simpl in *. destruct (regexp_test s); simpl; [done|].
    destruct Hown as [d Hd]. unfold getOwnPropertyDescriptor, defineProperty.
    rewrite Hd in Hsame |- *. simpl in Hsame. rewrite Hsame.
    rewrite redefinition_allowed_same, insert_id by done. by destruct target. }
  simpl. apply IH; intros k Hk; [apply Hsame|apply Hown]; by right.
Qed.

Lemma copyProps_again target source target' :
  copyProps target source = Ok target' ->
  copyProps target' source = Ok target'.
Proof.
  intros H.
  assert (forall n, props source !! KSym n = None) as Hsym.
  { intros n. destruct (props source !! KSym n) as [d|] eqn:Hn; [|done].
    by rewrite (copyProps_symbol target source n d Hn) in H. }
  apply copyProps_Ok in H as [_ Hl]. unfold copyProps.
  apply forEach_copyProp_again; [|apply listed_own_key|done].
  intros k _. rewrite Hl. by destruct (copied source k).
Qed.

(** X7: [copyProps] is idempotent: after a successful copy, copying from the
    same source again succeeds and leaves the target exactly as it is. *)
Theorem copyProps_idempotent target source target' :
  copyProps target source = Ok target' ->
  copyProps target' source = Ok target'.
Proof.
  intros H.
  assert (forall n, props source !! KSym n = None) as Hsym.
  { intros n. destruct (props source !! KSym n) as [d|] eqn:Hn; [|done].
    by rewrite (copyProps_symbol target source n d Hn) in H. }
  apply copyProps_Ok in H as [_ Hl]. unfold copyProps.
  apply forEach_copyProp_again; [|apply listed_own_key|done].
  intros k _. rewrite Hl. by destruct (copied source k).
Qed.

Lemma copyProps_idempotent_witness :
  (base_prototype ← copyProps (prototype_object "base" []) (c_prototype Scanner);
   again ← copyProps base_prototype (c_prototype Scanner);
   Ok (bool_decide (props again = props base_prototype)))
  = Ok true.
Proof.
  assert (is_ok (copyProps (prototype_object "base" []) (c_prototype Scanner)) = true)
    as Hok by (vm_compute; reflexivity).
  destruct (copyProps (prototype_object "base" []) (c_prototype Scanner))
    as [target'|e|] eqn:H; [|discriminate Hok..].
  cbn [mbind result_bind].
  rewrite (copyProps_idempotent _ _ _ H). cbn [mbind result_bind].
  by rewrite bool_decide_true.
Defined.

Lemma copyProp_is_ok source target k :
  is_ok (copyProp source target k) =
  match k with
  | KSym _ => false
  | KStr s =>
      regexp_test s
      || match props source !! k with
         | Some d => accepts target k d
         | None => false
         end
  end.
Proof.
  destruct k as [s|n]; [|done]. unfold copyProp, accepts. simpl.
  destruct (regexp_test s); simpl; [done|].
  unfold getOwnPropertyDescriptor, defineProperty.
  destruct (props source !! KStr s) as [d|]; [|done].
  destruct (props target !! KStr s) as [current|].
  - by destruct (redefinition_allowed current d).
  - by destruct (extensible target).
Qed.

Lemma forallb_agree {A} (f g : A -> bool) (l : list A) :
  (forall x, x ∈ l -> f x = g x) -> forallb f l = forallb g l.
Proof.
  induction l as [|x l IH]; intros H; [done|]. simpl.
  rewrite (H x) by left. rewrite IH; [done|]. intros y Hy. apply H. by right.
Qed.

Lemma forEach_copyProp_is_ok source l target :
  NoDup l ->
  is_ok (forEach (copyProp source) l target) =
  forallb (fun k => is_ok (copyProp source target k)) l.
Proof.
  intros Hl. revert target. induction Hl as [|x l Hx Hl IH]; intros target; [done|].
  simpl. destruct (copyProp source target x) as [t1|e|] eqn:H1; simpl; [|done..].
  rewrite IH. apply forallb_agree. intros k Hk.
  apply copyProp_Ok in H1 as [He H1]. rewrite !copyProp_is_ok.
  destruct k as [s|n]; [|done]. unfold accepts. rewrite H1, He.
  rewrite decide_False; [done|]. by intros <-.
Qed.

Lemma NoDup_own_property_keys (o : obj) :
  NoDup (getOwnPropertyNames o ++ getOwnPropertySymbols o)%list.
Proof.
  unfold getOwnPropertyNames, getOwnPropertySymbols.
  assert (NoDup (own_keys o)) as Hkeys by apply NoDup_fst_map_to_list.
  assert (forall f, NoDup (List.filter f (own_keys o))) as Hfilter.
  { intros f. by apply NoDup_ListNoDup, List.NoDup_filter, NoDup_ListNoDup. }
  apply NoDup_app. split; [apply Hfilter|split; [|apply Hfilter]].
  intros k. rewrite !list_elem_of_In, !filter_In.
  intros [_ H1] [_ H2]. by rewrite H1 in H2.
Qed.

(** X8: when [copyProps] throws.  It returns normally exactly when the
    source owns no symbol-keyed property and the target accepts the definition
    of every own property of the source with a string name outside the
    Exclusion Set (the target is extensible where it lacks the name, and an
    existing non-configurable property is compatible); in every other case it
    throws a TypeError. *)
Theorem copyProps_succeeds_iff target source :
  (is_ok (copyProps target source) = true <->
   (forall n, props source !! KSym n = None)
   /\ forall s d, regexp_test s = false -> props source !! KStr s = Some d ->
                  accepts target (KStr s) d = true)
  /\ (forall e, copyProps target source = Throw e -> e = TypeError).
Proof.
  split; [|apply copyProps_throws].
  unfold copyProps. rewrite forEach_copyProp_is_ok by apply NoDup_own_property_keys.
  rewrite forallb_forall. split.
  - intros H. split.
    + intros n. destruct (props source !! KSym n) as [d|] eqn:Hn; [|done].
      specialize (H (KSym n)). rewrite copyProp_is_ok in H.
      discriminate H. apply list_elem_of_In, own_key_listed. eauto.
    + intros s d Hs Hd. specialize (H (KStr s)).
      rewrite copyProp_is_ok, Hs, Hd in H.
      apply H, list_elem_of_In, own_key_listed. eauto.
  - intros [Hsym Hstr] k [d Hd]%list_elem_of_In%listed_own_key.
    rewrite copyProp_is_ok. destruct k as [s|n]; [|by rewrite Hsym in Hd].
    rewrite Hd. destruct (regexp_test s) eqn:Hs; [done|]. simpl. by eapply Hstr.
Qed.

(** A frozen target rejects what it lacks, and a source with a symbol-keyed
    method is rejected by every target. *)
Example copyProps_rejections :
  copyProps (Obj (props (prototype_object "base" [])) false) (c_prototype Scanner)
  = Throw TypeError
  /\ copyProps (prototype_object "base" []) (c_prototype Tagged) = Throw TypeError.
Proof. split; vm_compute; reflexivity. Qed.

(** ** Aggregation without providers, and with a provider listed twice *)

(** X9: with no providers, [aggregation(B)] is a thin wrapper around [B].
    Its constructor does what [B]'s does for the same [new.target]; its
    prototype answers every name but [constructor] as [B]'s prototype chain
    does, and the class answers every static name but [prototype], [length]
    and [name] as [B] does.  The wrapper is named [base], so an abstract [B]
    (under any other name) can be instantiated through it: [B]'s guard does
    not recognise the object as a [B]. *)
Theorem aggregation_without_providers B :
  exists base,
    aggregation (OClass B) [] = Ok base
    /\ (forall n args, construct_with n base args = construct_with n B args)
    /\ (forall k, k <> KStr "constructor" ->
          prototype_lookup base k = prototype_lookup B k)
    /\ (forall k, k ∉ [KStr "prototype"; KStr "length"; KStr "name"] ->
          static_lookup base k = static_lookup B k)
    /\ constructor_name base = Ok (VStr "base")
    /\ (forall name msg args,
          abstract_class B name msg -> name <> "base" ->
          new (OClass base) args = Ok (Instance base empty_obj)).
Proof.
  eexists. split; [reflexivity|].
  assert (forall n args,
            construct_with n (class_decl "base" (Extends B) (CtorAggregation []) 0 [] [])
              args = construct_with n B args) as Hconstruct.
  { intros n args. rewrite construct_with_eq. simpl.
    by destruct (construct_with n B args). }
  split; [done|]. split; [|split; [|split; [reflexivity|]]].
  - intros k Hk. cbn [prototype_lookup class_decl c_prototype c_heritage].
    replace (props (prototype_object "base" []) !! k) with (@None descriptor); [done|].
    unfold prototype_object. simpl. rewrite lookup_insert_ne by done. done.
  - intros k Hk. cbn [static_lookup class_decl c_static c_heritage].
    replace (props (class_object "base" 0 []) !! k) with (@None descriptor); [done|].
    unfold class_object. simpl.
    rewrite !lookup_insert_ne; [done|..]; intros <-; apply Hk; set_solver.
  - intros name msg args HB Hname. unfold new. rewrite Hconstruct.
    rewrite (guard_outcome B name msg) by done.
    replace (constructor_name (class_decl "base" (Extends B) (CtorAggregation []) 0 [] []))
      with (Ok (VStr "base") : result value) by reflexivity.
    cbn [mbind result_bind]. unfold strict_equals.
    rewrite bool_decide_false; [done|]. by intros [= <-].
Qed.

Lemma forEach_twice {A S} (f : S -> A -> result S) pre x post acc :
  (forall s s', f s x = Ok s' -> f s' x = Ok s') ->
  forEach f (pre ++ x :: x :: post) acc = forEach f (pre ++ x :: post) acc.
Proof.
  intros Hf. rewrite !forEach_app.
  destruct (forEach f pre acc) as [s|e|]; simpl; [|done..].
  destruct (f s x) as [s'|e|] eqn:Hs; simpl; [|done..]. by rewrite (Hf s s').
Qed.

Lemma copy_mixin_idempotent base mixin base' :
  copy_mixin base mixin = Ok base' -> copy_mixin base' mixin = Ok base'.
Proof.
  unfold copy_mixin. intros (sp & Hsp & H)%bind_Ok.
  apply bind_Ok in H as (p1 & Hp1 & H). apply bind_Ok in H as (ss & Hss & H).
  apply bind_Ok in H as (s1 & Hs1 & H). injection H as <-.
  rewrite Hsp, Hss. simpl.
  rewrite (copyProps_again _ _ _ Hp1). simpl.
  by rewrite (copyProps_again _ _ _ Hs1).
Qed.

Lemma copy_mixin_with_ctor k mixin base :
  copy_mixin (with_ctor k base) mixin =
  base' ← copy_mixin base mixin; Ok (with_ctor k base').
Proof.
  unfold copy_mixin. cbn [with_ctor c_prototype c_static c_heritage c_ctor].
  destruct (mixin_prototype mixin) as [sp|e|]; [|reflexivity..].
  cbn [mbind result_bind].
  destruct (copyProps (c_prototype base) sp) as [p1|e|]; [|reflexivity..].
  cbn [mbind result_bind].
  destruct (mixin_object mixin) as [ss|e|]; [|reflexivity..].
  cbn [mbind result_bind].
  destruct (copyProps (c_static base) ss) as [s1|e|]; reflexivity.
Qed.

Lemma forEach_copy_mixin_with_ctor k mixins base :
  forEach copy_mixin mixins (with_ctor k base) =
  base' ← forEach copy_mixin mixins base; Ok (with_ctor k base').
Proof.
  revert base. induction mixins as [|m mixins IH]; intros base; [reflexivity|].
  cbn [forEach]. rewrite copy_mixin_with_ctor.
  destruct (copy_mixin base m) as [b1|e|]; [|reflexivity..].
  cbn [mbind result_bind]. apply IH.
Qed.

(** X10: a provider listed twice in a row counts once at composition time.
    [aggregation] ends with the repetition as it ends without it: with the
    same error, or with composites that extend the same base and have the
    same prototype and static properties.  The two composites differ in their
    constructors only: the one built from the list with the repetition
    instantiates and copies the repeated provider twice. *)
Theorem duplicate_provider baseClass pre mixin post :
  aggregation baseClass (pre ++ mixin :: mixin :: post) =
  (base1 ← aggregation baseClass (pre ++ mixin :: post);
   Ok (with_ctor (CtorAggregation (pre ++ mixin :: mixin :: post)) base1))
  /\ forall base2,
       aggregation baseClass (pre ++ mixin :: mixin :: post) = Ok base2 ->
       exists base1,
         aggregation baseClass (pre ++ mixin :: post) = Ok base1
         /\ c_heritage base1 = c_heritage base2
         /\ c_prototype base1 = c_prototype base2
         /\ c_static base1 = c_static base2
         /\ c_ctor base1 = CtorAggregation (pre ++ mixin :: post)
         /\ c_ctor base2 = CtorAggregation (pre ++ mixin :: mixin :: post).
Proof.
  assert (aggregation baseClass (pre ++ mixin :: mixin :: post) =
          (base1 ← aggregation baseClass (pre ++ mixin :: post);
           Ok (with_ctor (CtorAggregation (pre ++ mixin :: mixin :: post)) base1)))
    as Heq.
  { rewrite !aggregation_eq.
    destruct (class_heritage baseClass) as [h|e|]; [|reflexivity..].
    cbn [mbind result_bind].
    assert (class_decl "base" h (CtorAggregation (pre ++ mixin :: mixin :: post)) 0 [] []
            = with_ctor (CtorAggregation (pre ++ mixin :: mixin :: post))
                (class_decl "base" h (CtorAggregation (pre ++ mixin :: post)) 0 [] []))
      as -> by reflexivity.
    rewrite forEach_copy_mixin_with_ctor.
    by rewrite forEach_twice by (intros s s'; apply copy_mixin_idempotent). }
  split; [exact Heq|]. intros base2. rewrite Heq.
  intros (base1 & Hbase1 & [= <-])%bind_Ok. exists base1.
  pose proof Hbase1 as (_ & Hk & _)%aggregation_Ok. by repeat split.
Qed.

Lemma duplicate_provider_witness :
  exists base1 base2,
    aggregation (OClass Document) ([] ++ OClass Draft :: OClass Draft :: []) = Ok base2
    /\ aggregation (OClass Document) ([] ++ OClass Draft :: []) = Ok base1
    /\ c_prototype base1 = c_prototype base2.
Proof.
  assert (is_ok (aggregation (OClass Document)
                   ([] ++ OClass Draft :: OClass Draft :: [])) = true)
    as Hok by (vm_compute; reflexivity).
  destruct (aggregation (OClass Document) ([] ++ OClass Draft :: OClass Draft :: []))
    as [base2|e|] eqn:Hagg; [|discriminate Hok..].
  destruct (proj2 (duplicate_provider (OClass Document) [] (OClass Draft) []) base2 Hagg)
    as (base1 & Hagg1 & _ & Hp & _).
  exists base1, base2. split; [reflexivity|]. split; [exact Hagg1|exact Hp].
Defined.

(** ** The store of relationships and its consumer *)

Lemma findAllChildrenOf_app name rows rows' :
  findAllChildrenOf name (rows ++ rows') =
  (children ← findAllChildrenOf name rows;
   children' ← findAllChildrenOf name rows';
   Ok (children ++ children')%list).
Proof.
  induction rows as [|r rows IH]; cbn [app findAllChildrenOf].
  - cbn [mbind result_bind]. by destruct (findAllChildrenOf name rows').
  - rewrite IH. clear IH.
    destruct (get_field (from r) "name") as [n|e|]; [|reflexivity..].
    cbn [mbind result_bind].
    destruct (identical n name) as [same|e|]; [|reflexivity..].
    cbn [mbind result_bind].
    destruct (findAllChildrenOf name rows) as [children|e|]; [|reflexivity..].
    cbn [mbind result_bind].
    destruct (findAllChildrenOf name rows') as [children'|e|]; [|reflexivity..].
    cbn [mbind result_bind]. by destruct (same && _).
Qed.

(** X11: the query after [addParentAndChild(p, c)].  The children found for
    a name are those found before, followed by [c] when [p.name] is that
    name; the row stored for the child is read and compared by the filter too,
    so the query throws when [p] or [c] is [undefined] or [null].  For two
    persons and a string as the name asked for: the children of the parent's
    name gain the child, at the end, and the children of every other name are
    unchanged. *)
Theorem findAllChildrenOf_addParentAndChild name p c rows :
  findAllChildrenOf name (addParentAndChild p c rows) =
  (children ← findAllChildrenOf name rows;
   pn ← get_field p "name";
   same ← identical pn name;
   cn ← get_field c "name";
   _ ← identical cn name;
   Ok (children ++ if (same : bool) then [c] else [])%list)
  /\ forall pn cn n,
       findAllChildrenOf (DStr n)
         (addParentAndChild (Person (DStr pn)) (Person cn) rows) =
       (children ← findAllChildrenOf (DStr n) rows;
        Ok (children ++ if String.eqb pn n then [Person cn] else [])%list).
Proof.
  assert (forall name p c,
            findAllChildrenOf name (addParentAndChild p c rows) =
            (children ← findAllChildrenOf name rows;
             pn ← get_field p "name";
             same ← identical pn name;
             cn ← get_field c "name";
             _ ← identical cn name;
             Ok (children ++ if (same : bool) then [c] else [])%list)) as H.
  { clear. intros name p c. unfold addParentAndChild.
    rewrite findAllChildrenOf_app.
    destruct (findAllChildrenOf name rows) as [children|e|]; [|reflexivity..].
    cbn [mbind result_bind findAllChildrenOf from type to].
    destruct (get_field p "name") as [pn|e|]; [|reflexivity..]. cbn [mbind result_bind].
    destruct (identical pn name) as [same|e|]; [|reflexivity..].
    cbn [mbind result_bind].
    destruct (get_field c "name") as [cn|e|]; [|reflexivity..]. cbn [mbind result_bind].
    destruct (identical cn name) as [same'|e|]; [|reflexivity..].
    cbn [mbind result_bind]. rewrite andb_false_r, andb_true_r. reflexivity. }
  split; [apply H|]. intros pn cn n. rewrite H.
  destruct (findAllChildrenOf (DStr n) rows) as [children|e|]; [|reflexivity..].
  cbn [mbind result_bind get_field Person List.find fst snd String.eqb Ascii.eqb
       Bool.eqb identical].
  by destruct cn.
Qed.

(** Induction on the values, through the items of the arrays. *)
Lemma data_items_ind (P : data -> Prop) :
  P DUndefined -> P DNull -> (forall s, P (DStr s)) ->
  (forall fields, P (DObject fields)) ->
  (forall items, Forall P items -> P (DArray items)) ->
  forall v, P v.
Proof.
  intros Hu Hn Hs Ho Ha.
  exact (fix IH (v : data) : P v :=
           match v with
           | DUndefined => Hu
           | DNull => Hn
           | DStr s => Hs s
           | DObject fields => Ho fields
           | DArray items =>
               Ha items
                  ((fix all (l : list data) : Forall P l :=
                      match l with
                      | [] => List.Forall_nil P
                      | i :: l => List.Forall_cons P i l (IH i) (all l)
                      end) items)
           end).
Qed.

(** The conversion to a string either gives [text] or throws a TypeError. *)
Lemma to_string_text v :
  to_string v = if convertible v then Ok (text v) else Throw TypeError.
Proof.
  induction v as [| |s|fields|items IH] using data_items_ind; try reflexivity.
  - cbn [to_string convertible]. by destruct (has_field "toString" fields).
  - cbn [to_string convertible text].
    set (part := fun i => match i with
                          | DUndefined | DNull => Ok ""
                          | _ => to_string i
                          end).
    set (piece := fun i => match i with DUndefined | DNull => "" | _ => text i end).
    assert (traverse part items =
            if forallb convertible items then Ok (List.map piece items)
            else Throw TypeError) as ->.
    { induction IH as [|i items Hi _ IHitems]; [reflexivity|].
      cbn [traverse forallb List.map]. fold (traverse part items). rewrite IHitems.
      assert (part i = if convertible i then Ok (piece i) else Throw TypeError) as ->.
      { destruct i; try reflexivity; apply Hi. }
      destruct (convertible i); [|reflexivity].
      by destruct (forallb convertible items). }
    by destruct (forallb convertible items).
Qed.

Lemma log_children_app xs ys console :
  log_children (xs ++ ys) console =
  match log_children xs console with
  | (console', Ok _) => log_children ys console'
  | outcome => outcome
  end.
Proof.
  revert console. induction xs as [|x xs IH]; intros console; [done|].
  cbn [app log_children].
  destruct (n ← get_field x "name"; to_string n); [apply IH|done..].
Qed.

Lemma log_children_exact children console :
  log_children children console =
  ((console ++ List.map line_for (readable_prefix children))%list,
   if forallb readable children then Ok tt else Throw TypeError).
Proof.
  revert console. induction children as [|p children IH]; intros console.
  - simpl. by rewrite app_nil_r.
  - cbn [log_children readable_prefix forallb].
    assert ((n ← get_field p "name"; to_string n) =
            if readable p
            then Ok (text match get_field p "name" with Ok n => n | _ => DUndefined end)
            else Throw TypeError) as ->.
    { unfold readable. destruct p; cbn [get_field mbind result_bind]; try reflexivity;
        apply to_string_text. }
    destruct (readable p); cbn [andb List.map].
    + rewrite IH, <- app_assoc. reflexivity.
    + by rewrite app_nil_r.
Qed.

(** X12: what the consumer logs.  When the provider answers the query for
    John with an array, [new Research(provider)] logs one line per child, in
    the order of the array, up to the first child for which the template
    literal throws: a child that is [undefined] or [null], or one whose name
    cannot be converted to a string (an object with an own [toString], or an
    array holding one).  It completes normally when there is no such child and
    throws a TypeError, after the lines already logged, when there is one. *)
Theorem Research_logs b f children :
  provides b f ->
  f [DStr "John"] = Ok (DArray children) ->
  Research b =
  (List.map line_for (readable_prefix children),
   if forallb readable children then Ok tt else Throw TypeError).
Proof.
  intros (members & -> & Hm) Hf. unfold Research, call_method.
  rewrite Hm, Hf. cbn [mbind result_bind iterate]. apply log_children_exact.
Qed.

Lemma Research_logs_witness :
  Research (BObject (fun _ => Some (Method (fun _ =>
              Ok (DArray [Person (DStr "Chris");
                          Person (DObject [("toString", DNull)]);
                          Person (DStr "Matt")])))))
  = (["John has a child named Chris"], Throw TypeError).
Proof.
  assert (provides
            (BObject (fun _ => Some (Method (fun _ =>
               Ok (DArray [Person (DStr "Chris");
                           Person (DObject [("toString", DNull)]);
                           Person (DStr "Matt")])))))
            (fun _ => Ok (DArray [Person (DStr "Chris");
                                  Person (DObject [("toString", DNull)]);
                                  Person (DStr "Matt")]))) as Hprovides.
  { by eexists. }
  exact (Research_logs _ _ [Person (DStr "Chris");
                            Person (DObject [("toString", DNull)]);
                            Person (DStr "Matt")]
           Hprovides eq_refl).
Defined.

(** X13: the store and the consumer together.  When [new Research(rels)]
    completes normally on a store, then after [rels.addParentAndChild(john, c)]
    for a person [john] named John and a person [c] it logs the same lines
    followed by one line for [c], or, when the name of [c] cannot be converted
    to a string, logs the same lines and throws a TypeError; after adding a
    child to a parent of another name it logs the same lines and completes. *)
Theorem Research_after_addParentAndChild rows lines pn cn :
  Research (Relationships_object rows) = (lines, Ok tt) ->
  Research (Relationships_object
              (addParentAndChild (Person (DStr pn)) (Person cn) rows))
  = if String.eqb pn "John"
    then if convertible cn
         then ((lines ++ ["John has a child named " +:+ text cn])%list, Ok tt)
         else (lines, Throw TypeError)
    else (lines, Ok tt).
Proof.
  unfold Research, Relationships_object, call_method.
  cbn [String.eqb Ascii.eqb Bool.eqb List.hd].
  unfold addParentAndChild. rewrite findAllChildrenOf_app.
  destruct (findAllChildrenOf (DStr "John") rows) as [children|e|];
    cbn [mbind result_bind iterate]; [|discriminate..].
  intros H.
  assert (findAllChildrenOf (DStr "John")
            [Row (Person (DStr pn)) Relationship.parent (Person cn);
             Row (Person cn) Relationship.child (Person (DStr pn))]
          = Ok (if String.eqb pn "John" then [Person cn] else [])) as ->.
  { cbn [findAllChildrenOf from type to get_field Person List.find fst snd String.eqb
         Ascii.eqb Bool.eqb mbind result_bind identical].
    destruct cn; cbn [identical mbind result_bind];
      by rewrite andb_false_r, andb_true_r. }
  cbn [mbind result_bind iterate]. rewrite log_children_app, H.
  destruct (String.eqb pn "John"); [|reflexivity].
  cbn [log_children get_field Person List.find fst snd String.eqb Ascii.eqb Bool.eqb
       mbind result_bind].
  rewrite to_string_text. by destruct (convertible cn).
Qed.

Lemma Research_after_addParentAndChild_witness :
  Research (Relationships_object
              (addParentAndChild (Person (DStr "John")) (Person (DStr "Matt"))
                 (addParentAndChild (Person (DStr "John")) (Person (DStr "Chris")) [])))
  = (["John has a child named Chris"; "John has a child named Matt"], Ok tt).
Proof.
  exact (Research_after_addParentAndChild
           (addParentAndChild (Person (DStr "John")) (Person (DStr "Chris")) [])
           ["John has a child named Chris"] "John" (DStr "Matt") eq_refl).
Defined.

(** ** Rectangles and squares *)

(** X14: the sides under assignment.  On a [Rectangle] an assignment to one
    side leaves the other side as it was; on a [Square] every assignment sets
    both, so that after any sequence of assignments to the sides of a square
    its two sides are the same number, the last one assigned (the size given
    to the constructor when there was no assignment). *)
Theorem sides_under_assignment `{Numbers} :
  (forall w h v,
     _width (set_height v (Rectangle w h)) = w
     /\ _height (set_height v (Rectangle w h)) = v
     /\ _width (set_width v (Rectangle w h)) = v
     /\ _height (set_width v (Rectangle w h)) = h)
  /\ forall size assignments,
       let sq := foldl set_side (Square size) assignments in
       class_of sq = IsSquare
       /\ _width sq = _height sq
       /\ _width sq = List.last (List.map snd assignments) size.
Proof.
  split; [done|]. intros size assignments. cbv zeta.
  induction assignments as [|a assignments IH] using rev_ind; [done|].
  rewrite foldl_app, List.map_app. cbn [foldl List.map]. rewrite List.last_last.
  destruct IH as (Hclass & _ & _).
  set (sq := foldl set_side (Square size) assignments) in *.
  unfold set_side, set_width, set_height. rewrite Hclass. by destruct (fst a).
Qed.

(** X15: the line that [useIt] logs.  For a [Rectangle] the area it gets is
    the area it expects, whatever the sides; for a [Square] it gets the area of
    the square of side 10 whatever the size, while it expects ten times the
    size. *)
Theorem useIt_logs `{Numbers} :
  (forall w h,
     useIt (Rectangle w h) =
     (Rectangle w ten,
      "Expected area of " +:+ display (times ten w) +:+ ", "
      +:+ "got " +:+ display (times ten w)))
  /\ forall size,
       useIt (Square size) =
       (Square ten,
        "Expected area of " +:+ display (times ten size) +:+ ", "
        +:+ "got " +:+ display (times ten ten)).
Proof.
  split; [|done]. intros w h. unfold useIt, area. simpl.
  by rewrite (times_comm w ten).
Qed.

(** The two calls of the example, on the integers. *)
Example useIt_on_the_example :
  snd (@useIt integers (@Rectangle integers 2%Z 3%Z))
  = "Expected area of 20, got 20"
  /\ snd (@useIt integers (@Square integers 5%Z))
     = "Expected area of 50, got 100".
Proof. split; vm_compute; reflexivity. Qed.

(** ** The members available on the composite itself *)

(** X16: once [aggregation] has returned, before and whether or not any
    instance can be built, the composite answers every static member of a
    provider with a string name outside the Exclusion Set and every static
    member that the base answers, and its prototype answers every such member
    of the prototypes of the providers and every member that the base's
    prototype answers. *)
Theorem members_on_the_composite baseClass mixins base :
  aggregation baseClass mixins = Ok base ->
  (forall m s, OClass m ∈ mixins -> regexp_test s = false ->
     (is_Some (props (c_static m) !! KStr s) -> is_Some (static_lookup base (KStr s)))
     /\ (is_Some (props (c_prototype m) !! KStr s) ->
         is_Some (prototype_lookup base (KStr s))))
  /\ forall b k, baseClass = OClass b ->
       (is_Some (static_lookup b k) -> is_Some (static_lookup base k))
       /\ (is_Some (prototype_lookup b k) -> is_Some (prototype_lookup base k)).
Proof.
  intros (Hh & _ & classes & -> & Hp & Hs)%aggregation_Ok.
  destruct base as [h k p s]. cbn [c_heritage c_prototype c_static] in *. split.
  - intros m n Hin Hn. apply list_elem_of_fmap in Hin as (m' & [= <-] & Hin).
    split; intros Hm.
    + cbn [static_lookup c_static]. rewrite Hs.
      destruct (last_copied_is_Some (c_static <$> classes) (c_static m) (KStr n))
        as [d ->]; [by apply list_elem_of_fmap_2|simpl; by rewrite Hn|by eauto].
    + cbn [prototype_lookup c_prototype]. rewrite Hp.
      destruct (last_copied_is_Some (c_prototype <$> classes) (c_prototype m) (KStr n))
        as [d ->]; [by apply list_elem_of_fmap_2|simpl; by rewrite Hn|by eauto].
  - intros b j ->. simpl in Hh. injection Hh as <-. split; intros Hb.
    + cbn [static_lookup c_static c_heritage]. destruct (props s !! j); eauto.
    + cbn [prototype_lookup c_prototype c_heritage]. destruct (props p !! j); eauto.
Qed.

Lemma members_on_the_composite_witness :
  (base ← aggregation (OClass Printer) [OClass Scanner; OClass Draft];
   Ok (bool_decide (is_Some (static_lookup base (KStr "create")))))
  = Ok true.
Proof.
  assert (is_ok (aggregation (OClass Printer) [OClass Scanner; OClass Draft]) = true)
    as Hok by (vm_compute; reflexivity).
  destruct (aggregation (OClass Printer) [OClass Scanner; OClass Draft])
    as [base|e|] eqn:Hagg; [|discriminate Hok..].
  cbn [mbind result_bind]. f_equal. apply bool_decide_eq_true.
  apply (proj1 (members_on_the_composite _ _ _ Hagg) Draft "create").
  - right. left.
  - reflexivity.
  - vm_compute. eauto.
Defined.
